(** * clockbutler: the Butler controller of [main.py]

    A shallow embedding of the [Butler] class: the script navigator
    ([set_scripts], [inc_current], [dec_current], [get_current],
    [set_favorite], [get_favorite]), the asynchronous handlers ([volume],
    [play], [say], [aplay]) and the three long-running tasks
    ([mqtt_listener], [gpi_listener], [clock_worker]). *)

From Stdlib Require Import ZArith String Ascii List Lia.
From stdpp Require Import base option list gmap strings pretty.

Set Warnings "-register-all".
Local Open Scope string_scope.
Local Open Scope Z_scope.

(** ** Python values and exceptions *)

(** The values that [json.loads] and [yaml.safe_load] build.  A [str] is
    kept as the string of its UTF-8 bytes (the form in which it arrives in
    an MQTT payload), a [float] as its literal, a [dict] with [str] keys as
    a finite map. *)
Inductive pyval : Type :=
| PNone
| PBool (b : bool)
| PInt (z : Z)
| PFloat (literal : string)
| PStr (s : string)
| PList (l : list pyval)
| PDict (d : gmap string pyval).

(** The subclasses of [Exception] that the program can meet.  Signals that
    derive from [BaseException] only (task cancellation, keyboard
    interrupt) are outside the model, so that [except Exception] catches
    every [exn]. *)
Inductive exn : Type :=
| TypeError
| IndexError
| KeyError (key : pyval)
| NameError (name : string)
| AttributeError (attr : string)
| ValueError
| JSONDecodeError
| RecursionError
| UnicodeDecodeError
| OSError
| MqttError.

(** A Python call either returns or raises. *)
Inductive result (A : Type) : Type :=
| Ok (a : A)
| Raise (e : exn).
Arguments Ok {A} a.
Arguments Raise {A} e.

#[global] Instance result_ret : MRet result := fun A a => Ok a.
#[global] Instance result_bind : MBind result := fun A B f m =>
  match m with
  | Ok a => f a
  | Raise e => Raise e
  end.

(** [n] repetitions of a call that may raise, stopping at the first
    exception. *)
Fixpoint repeat_call {A : Type} (n : nat) (f : A → result A) (a : A) : result A :=
  match n with
  | O => Ok a
  | S n' => a' ← f a; repeat_call n' f a'
  end.

(** *** Sequences *)

(** A byte of the form [10xxxxxx] continues a UTF-8 code point. *)
Definition utf8_continuation (c : ascii) : bool :=
  Z.land (Z.of_N (N_of_ascii c)) 192 =? 128.

(** The code points of a UTF-8 string, each as the list of its bytes.  The
    first component collects continuation bytes that wait for their lead
    byte. *)
Fixpoint utf8_split (s : list ascii) : list ascii * list (list ascii) :=
  match s with
  | [] => ([], [])
  | c :: r =>
      let '(pending, chars) := utf8_split r in
      if utf8_continuation c then (c :: pending, chars)
      else ([], (c :: pending) :: chars)
  end.

Definition code_points (s : string) : list string :=
  string_of_list_ascii <$> (utf8_split (list_ascii_of_string s)).2.

(** [seq[i]] for an [int] index: negative indices count from the end, an
    index outside [-len, len) raises [IndexError]. *)
Definition seq_getitem {A : Type} (l : list A) (i : Z) : result A :=
  let n := Z.of_nat (length l) in
  let j := if i <? 0 then i + n else i in
  if (0 <=? j) && (j <? n) then
    match l !! Z.to_nat j with
    | Some x => Ok x
    | None => Raise IndexError
    end
  else Raise IndexError.

(** [len(v)] *)
Definition py_len (v : pyval) : result Z :=
  match v with
  | PList l => Ok (Z.of_nat (length l))
  | PStr s => Ok (Z.of_nat (length (code_points s)))
  | PDict d => Ok (Z.of_nat (size d))
  | PNone | PBool _ | PInt _ | PFloat _ => Raise TypeError
  end.

(** [v[i]] for an [int] index [i].  The keys of a [PDict] are strings, so
    an [int] is never among them. *)
Definition py_index (v : pyval) (i : Z) : result pyval :=
  match v with
  | PList l => seq_getitem l i
  | PStr s => c ← seq_getitem (code_points s) i; Ok (PStr c)
  | PDict _ => Raise (KeyError (PInt i))
  | PNone | PBool _ | PInt _ | PFloat _ => Raise TypeError
  end.

(** [v[k]] for a [str] key [k], as in [self.config["device"]]. *)
Definition py_item (v : pyval) (k : string) : result pyval :=
  match v with
  | PDict d =>
      match d !! k with
      | Some x => Ok x
      | None => Raise (KeyError (PStr k))
      end
  | PNone | PBool _ | PInt _ | PFloat _ | PStr _ | PList _ => Raise TypeError
  end.

(** Truth value of [self.current_position], which is [None] or an [int]. *)
Definition truthy (p : option Z) : bool :=
  match p with
  | None => false
  | Some z => negb (z =? 0)
  end.

(** [os.path.join(a, b)] of [posixpath], for a first component read from
    the configuration and a [str] second component. *)
Definition os_path_join (a : pyval) (b : string) : result string :=
  match a with
  | PStr a =>
      if String.prefix "/" b then Ok b
      else if (String.length a =? 0)%nat || String.prefix "/" (String.rev a)
           then Ok (a +:+ b)
           else Ok (a +:+ "/" +:+ b)
  | PNone | PBool _ | PInt _ | PFloat _ | PList _ | PDict _ => Raise TypeError
  end.

(** The parts of the Python library whose code is not the program's:
    [json.loads], which returns the decoded value or raises, and the
    rendering of a value inside an f-string. *)
Class PyLib : Type := {
  json_loads : string → result pyval;
  py_format : pyval → string;
}.

(** ** The Butler object *)

(** The handle that [aiomqtt.Client(host)] yields once connected. *)
Inductive client : Type :=
| Client (host : pyval).

Record Butler : Type := mkButler {
  script_list : pyval;
  favorite_dict : gmap Z Z;
  current_position : option Z;
  mqtt_client : option client;
  config : pyval;
}.

Definition with_script_list (v : pyval) (self : Butler) : Butler :=
  mkButler v (favorite_dict self) (current_position self) (mqtt_client self) (config self).

Definition with_favorite_dict (d : gmap Z Z) (self : Butler) : Butler :=
  mkButler (script_list self) d (current_position self) (mqtt_client self) (config self).

Definition with_current_position (p : option Z) (self : Butler) : Butler :=
  mkButler (script_list self) (favorite_dict self) p (mqtt_client self) (config self).

Definition with_mqtt_client (c : option client) (self : Butler) : Butler :=
  mkButler (script_list self) (favorite_dict self) (current_position self) c (config self).

(** [Butler.__init__]; [cfg] is what [read_config] returned: the loaded
    YAML document, or [PNone] when reading failed. *)
Definition init (cfg : pyval) : Butler :=
  mkButler (PList []) ∅ None None cfg.

(** A record of the [logging] module. *)
Inductive level : Type := INFO | ERROR | CRITICAL.

Inductive logrec : Type :=
| Log (lvl : level) (msg : string)
| LogExn (lvl : level) (msg : string) (e : exn).

(** ** The script navigator *)

Section Navigator.
Context `{!PyLib}.

(** [set_scripts]: the assignment to [self.script_list] comes before
    [len], and [except Exception] covers both. *)
Definition set_scripts (names : string) (self : Butler) : Butler * list logrec :=
  match json_loads names with
  | Raise _ => (self, [Log ERROR "Unable to parse script list"])
  | Ok v =>
      let self := with_script_list v self in
      match py_len v with
      | Raise _ => (self, [Log ERROR "Unable to parse script list"])
      | Ok n =>
          if 0 <? n then (with_current_position (Some 0) self, [])
          else (self, [])
      end
  end.
End Navigator.

(** [inc_current]: [len(self.script_list) - 1] is evaluated, then
    compared with [self.current_position]; [None < int] raises. *)
Definition inc_current (self : Butler) : result Butler :=
  n ← py_len (script_list self);
  match current_position self with
  | None => Raise TypeError
  | Some p =>
      if p <? n - 1 then Ok (with_current_position (Some (p + 1)) self)
      else Ok (with_current_position (Some 0) self)
  end.

(** [dec_current]: [None > 0] raises; [len] is only evaluated in the
    [else] branch. *)
Definition dec_current (self : Butler) : result Butler :=
  match current_position self with
  | None => Raise TypeError
  | Some p =>
      if 0 <? p then Ok (with_current_position (Some (p - 1)) self)
      else n ← py_len (script_list self);
           Ok (with_current_position (Some (n - 1)) self)
  end.

(** [get_current]: falls off the end, returning [None], when no position
    is set. *)
Definition get_current (self : Butler) : result pyval :=
  match current_position self with
  | Some p => py_index (script_list self) p
  | None => Ok PNone
  end.

(** [set_favorite]: guarded by the truth value of the position. *)
Definition set_favorite (index : Z) (self : Butler) : Butler :=
  match current_position self with
  | Some p =>
      if truthy (Some p)
      then with_favorite_dict (<[index := p]> (favorite_dict self)) self
      else self
  | None => self
  end.

(** [get_favorite] *)
Definition get_favorite (index : Z) (self : Butler) : result pyval :=
  match favorite_dict self !! index with
  | Some pos => py_index (script_list self) pos
  | None => Ok PNone
  end.

(** ** A decoder for JSON text

    The grammar that [json.loads] accepts, as an instance at which the
    navigator can be run on concrete payloads: the four whitespace
    characters, [null], [true], [false], [NaN], [Infinity], [-Infinity],
    numbers, strings with their escapes, arrays and objects.  A repeated
    key keeps its last value.  The interpreter's recursion limit is not
    part of the decoder: [fuel] always suffices for the given text. *)
Module Json.

Definition dquote : ascii := "034"%char.

Definition is_ws (c : ascii) : bool :=
  match c with
  | " "%char | "009"%char | "010"%char | "013"%char => true
  | _ => false
  end.

Fixpoint skip_ws (s : list ascii) : list ascii :=
  match s with
  | [] => []
  | c :: r => if is_ws c then skip_ws r else s
  end.

Definition code (c : ascii) : Z := Z.of_N (N_of_ascii c).

Definition byte (z : Z) : ascii := ascii_of_N (Z.to_N z).

Definition digit_val (c : ascii) : option Z :=
  if (48 <=? code c) && (code c <=? 57) then Some (code c - 48) else None.

Definition hex_val (c : ascii) : option Z :=
  if (48 <=? code c) && (code c <=? 57) then Some (code c - 48)
  else if (97 <=? code c) && (code c <=? 102) then Some (code c - 87)
  else if (65 <=? code c) && (code c <=? 70) then Some (code c - 55)
  else None.

Definition hex4 (a b c d : ascii) : option Z :=
  x ← hex_val a; y ← hex_val b; z ← hex_val c; w ← hex_val d;
  Some (((x * 16 + y) * 16 + z) * 16 + w).

(** UTF-8 bytes of a code point; a lone surrogate is encoded like any
    other three-byte code point. *)
Definition utf8_encode (cp : Z) : list ascii :=
  if cp <? 128 then [byte cp]
  else if cp <? 2048 then
    [byte (Z.lor 192 (Z.shiftr cp 6)); byte (Z.lor 128 (Z.land cp 63))]
  else if cp <? 65536 then
    [byte (Z.lor 224 (Z.shiftr cp 12));
     byte (Z.lor 128 (Z.land (Z.shiftr cp 6) 63));
     byte (Z.lor 128 (Z.land cp 63))]
  else
    [byte (Z.lor 240 (Z.shiftr cp 18));
     byte (Z.lor 128 (Z.land (Z.shiftr cp 12) 63));
     byte (Z.lor 128 (Z.land (Z.shiftr cp 6) 63));
     byte (Z.lor 128 (Z.land cp 63))].

Definition simple_escape (e : ascii) : option ascii :=
  match e with
  | "034"%char => Some dquote
  | "\"%char => Some "\"%char
  | "/"%char => Some "/"%char
  | "b"%char => Some "008"%char
  | "f"%char => Some "012"%char
  | "n"%char => Some "010"%char
  | "r"%char => Some "013"%char
  | "t"%char => Some "009"%char
  | _ => None
  end.

(** The code point of a high surrogate [hi] joined with the low surrogate
    that the next six characters [\uXXXX] spell, if they do. *)
Definition surrogate_pair (hi : Z) (r : list ascii) : option Z :=
  match r with
  | "\"%char :: "u"%char :: h1 :: h2 :: h3 :: h4 :: _ =>
      if (55296 <=? hi) && (hi <=? 56319) then
        lo ← hex4 h1 h2 h3 h4;
        if (56320 <=? lo) && (lo <=? 57343)
        then Some (65536 + Z.lor (Z.shiftl (hi - 55296) 10) (lo - 56320))
        else None
      else None
  | _ => None
  end.

(** The body of a string, after its opening quote; [acc] holds the bytes
    read so far, last first. *)
Fixpoint scan_string (s : list ascii) (acc : list ascii) {struct s}
  : result (string * list ascii) :=
  match s with
  | [] => Raise JSONDecodeError
  | c :: r =>
      if Ascii.eqb c dquote then Ok (string_of_list_ascii (rev acc), r)
      else if Ascii.eqb c "\"%char then
        match r with
        | [] => Raise JSONDecodeError
        | e :: r1 =>
            if Ascii.eqb e "u"%char then
              match r1 with
              | h1 :: h2 :: h3 :: h4 :: r2 =>
                  match hex4 h1 h2 h3 h4 with
                  | None => Raise JSONDecodeError
                  | Some hi =>
                      match surrogate_pair hi r2, r2 with
                      | Some cp, _ :: _ :: _ :: _ :: _ :: _ :: r3 =>
                          scan_string r3 (rev_append (utf8_encode cp) acc)
                      | _, _ => scan_string r2 (rev_append (utf8_encode hi) acc)
                      end
                  end
              | _ => Raise JSONDecodeError
              end
            else
              match simple_escape e with
              | Some x => scan_string r1 (x :: acc)
              | None => Raise JSONDecodeError
              end
        end
      else if code c <? 32 then Raise JSONDecodeError
      else scan_string r (c :: acc)
  end.

Fixpoint take_digits (s : list ascii) : list Z * list ascii :=
  match s with
  | [] => ([], [])
  | c :: r =>
      match digit_val c with
      | Some d => let '(ds, r') := take_digits r in (d :: ds, r')
      | None => ([], s)
      end
  end.

(** The integer part [0 | [1-9][0-9]*] of a number. *)
Definition int_part (s : list ascii) : option (list Z * list ascii) :=
  match s with
  | "0"%char :: r => Some ([0], r)
  | c :: _ =>
      match digit_val c with
      | Some _ => Some (take_digits s)
      | None => None
      end
  | [] => None
  end.

(** The fraction [\.[0-9]+], when present. *)
Definition frac_part (s : list ascii) : option (list ascii) :=
  match s with
  | "."%char :: r =>
      match take_digits r with
      | ([], _) => None
      | (_, r') => Some r'
      end
  | _ => None
  end.

(** The exponent [[eE][-+]?[0-9]+], when present. *)
Definition exp_part (s : list ascii) : option (list ascii) :=
  match s with
  | c :: r =>
      if Ascii.eqb c "e"%char || Ascii.eqb c "E"%char then
        let r1 := match r with
                  | "+"%char :: r1 | "-"%char :: r1 => r1
                  | _ => r
                  end in
        match take_digits r1 with
        | ([], _) => None
        | (_, r') => Some r'
        end
      else None
  | [] => None
  end.

(** A number at the head of [s]: an [int] when it has neither fraction
    nor exponent (with the interpreter's default limit of 4300 digits for
    the conversion), a [float] otherwise. *)
Definition scan_number (s : list ascii) : result (pyval * list ascii) :=
  let '(neg, s1) := match s with
                    | "-"%char :: r => (true, r)
                    | _ => (false, s)
                    end in
  match int_part s1 with
  | None => Raise JSONDecodeError
  | Some (ds, r) =>
      let r1 := default r (frac_part r) in
      let r2 := default r1 (exp_part r1) in
      if (length r2 =? length r)%nat then
        if (4300 <? length ds)%nat then Raise ValueError
        else
          let n := foldl (fun a d => a * 10 + d) 0 ds in
          Ok (PInt (if neg then - n else n), r)
      else
        Ok (PFloat (string_of_list_ascii (take (length s - length r2) s)), r2)
  end.

Definition strip_prefix (p : string) (s : list ascii) : option (list ascii) :=
  let p := list_ascii_of_string p in
  if bool_decide (take (length p) s = p) then Some (drop (length p) s) else None.

Definition scan_literal (s : list ascii) : result (pyval * list ascii) :=
  match strip_prefix "null" s, strip_prefix "true" s, strip_prefix "false" s,
        strip_prefix "NaN" s, strip_prefix "Infinity" s, strip_prefix "-Infinity" s with
  | Some r, _, _, _, _, _ => Ok (PNone, r)
  | _, Some r, _, _, _, _ => Ok (PBool true, r)
  | _, _, Some r, _, _, _ => Ok (PBool false, r)
  | _, _, _, Some r, _, _ => Ok (PFloat "nan", r)
  | _, _, _, _, Some r, _ => Ok (PFloat "inf", r)
  | _, _, _, _, _, Some r => Ok (PFloat "-inf", r)
  | _, _, _, _, _, _ => scan_number s
  end.

Fixpoint scan_once (fuel : nat) (s : list ascii) {struct fuel}
  : result (pyval * list ascii) :=
  match fuel with
  | O => Raise RecursionError
  | S fuel =>
      match s with
      | "034"%char :: r =>
          '(str, r') ← scan_string r [];
          Ok (PStr str, r')
      | "["%char :: r =>
          match skip_ws r with
          | "]"%char :: r' => Ok (PList [], r')
          | r' => '(vs, r'') ← scan_array fuel r'; Ok (PList vs, r'')
          end
      | "{"%char :: r =>
          match skip_ws r with
          | "}"%char :: r' => Ok (PDict ∅, r')
          | r' => '(d, r'') ← scan_object fuel r' ∅; Ok (PDict d, r'')
          end
      | _ => scan_literal s
      end
  end
with scan_array (fuel : nat) (s : list ascii) {struct fuel}
  : result (list pyval * list ascii) :=
  match fuel with
  | O => Raise RecursionError
  | S fuel =>
      '(v, r) ← scan_once fuel s;
      match skip_ws r with
      | "]"%char :: r' => Ok ([v], r')
      | ","%char :: r' =>
          '(vs, r'') ← scan_array fuel (skip_ws r');
          Ok (v :: vs, r'')
      | _ => Raise JSONDecodeError
      end
  end
with scan_object (fuel : nat) (s : list ascii) (acc : gmap string pyval) {struct fuel}
  : result (gmap string pyval * list ascii) :=
  match fuel with
  | O => Raise RecursionError
  | S fuel =>
      match s with
      | "034"%char :: r =>
          '(key, r1) ← scan_string r [];
          match skip_ws r1 with
          | ":"%char :: r2 =>
              '(v, r3) ← scan_once fuel (skip_ws r2);
              let acc := <[key := v]> acc in
              match skip_ws r3 with
              | "}"%char :: r4 => Ok (acc, r4)
              | ","%char :: r4 => scan_object fuel (skip_ws r4) acc
              | _ => Raise JSONDecodeError
              end
          | _ => Raise JSONDecodeError
          end
      | _ => Raise JSONDecodeError
      end
  end.

(** [json.loads(text)]: one value, surrounded by optional whitespace. *)
Definition loads (text : string) : result pyval :=
  let s := list_ascii_of_string text in
  '(v, r) ← scan_once (2 * length s + 2) (skip_ws s);
  match skip_ws r with
  | [] => Ok v
  | _ :: _ => Raise JSONDecodeError
  end.

End Json.

(** [str(v)] as an f-string inserts it: exact on [None], [bool], [int]
    and [str]; a [float] is shown by its literal and a container by its
    brackets only, which no payload or configuration used below needs. *)
Definition str_of (v : pyval) : string :=
  match v with
  | PStr s => s
  | PFloat literal => literal
  | PNone => "None"
  | PBool true => "True"
  | PBool false => "False"
  | PInt z => pretty z
  | PList _ => "[...]"
  | PDict _ => "{...}"
  end.

Definition json_library : PyLib := {|
  json_loads := Json.loads;
  py_format := str_of;
|}.

(** ** Coroutines and the operations they call *)

Definition pid : Type := nat.

(** What [process.communicate()] hands back once the process has exited:
    the exit status, and the outcome of [stderr.decode()]. *)
Record completed : Type := mkCompleted {
  returncode : Z;
  stderr_decode : result string;
}.

(** An [aiomqtt.Message]: [topic_matches w] is [message.topic.matches(w)],
    [payload_decode] the outcome of [message.payload.decode()]. *)
Record message : Type := mkMessage {
  topic_value : string;
  topic_matches : string → result bool;
  payload_decode : result string;
}.

Inductive voice : Type :=
| Voice (model : pyval).

Inductive wave_write : Type :=
| WaveWrite (filename : string).

(** Calls into the world outside the Butler object, indexed by the type
    of what they return (a [result] when the call may raise). *)
Inductive cmd : Type → Type :=
| Logging (r : logrec) : cmd unit
| CreateSubprocess (argv : list string) : cmd (result pid)
| Communicate (p : pid) : cmd completed
| IsFile (path : string) : cmd bool
| PiperLoad (model : pyval) : cmd (result voice)
| WaveOpen (filename : string) : cmd (result wave_write)
| Synthesize (v : voice) (speech : string) (wf : wave_write) : cmd (result unit)
| Connect (host : pyval) : cmd (result client)
| Subscribe (c : client) (topic : string) : cmd (result unit)
| NextMessage (c : client) : cmd (result message)
| Publish (c : client) (topic payload : string) : cmd (result unit)
| GpioSetup (pin : Z) : cmd (result unit)
| GpioInput (pin : Z) : cmd bool
| Sleep (delay : pyval) : cmd (result unit)
| Now : cmd string.

(** A method body: it returns, raises, reads or replaces the attributes
    of [self], or performs a call and goes on with what the call
    returned. *)
Inductive prog (A : Type) : Type :=
| Ret (a : A)
| Throw (e : exn)
| GetSelf (k : Butler → prog A)
| SetSelf (self : Butler) (k : prog A)
| Do {X : Type} (c : cmd X) (k : X → prog A).
Arguments Ret {A} a.
Arguments Throw {A} e.
Arguments GetSelf {A} k.
Arguments SetSelf {A} self k.
Arguments Do {A X} c k.

Fixpoint prog_bind {A B : Type} (f : A → prog B) (p : prog A) : prog B :=
  match p with
  | Ret a => f a
  | Throw e => Throw e
  | GetSelf k => GetSelf (fun self => prog_bind f (k self))
  | SetSelf self k => SetSelf self (prog_bind f k)
  | Do c k => Do c (fun x => prog_bind f (k x))
  end.

#[global] Instance prog_ret : MRet prog := fun A a => Ret a.
#[global] Instance prog_mbind : MBind prog := fun A B f p => prog_bind f p.

(** [try: body except E as error: handler error], where [catches] tells
    which exceptions the clause [E] covers. *)
Fixpoint try_except {A : Type} (catches : exn → bool)
    (body : prog A) (handler : exn → prog A) : prog A :=
  match body with
  | Ret a => Ret a
  | Throw e => if catches e then handler e else Throw e
  | GetSelf k => GetSelf (fun self => try_except catches (k self) handler)
  | SetSelf self k => SetSelf self (try_except catches k handler)
  | Do c k => Do c (fun x => try_except catches (k x) handler)
  end.

Definition Exception (e : exn) : bool := true.

Definition aiomqtt_MqttError (e : exn) : bool :=
  match e with
  | MqttError => true
  | _ => false
  end.

Definition lift {A : Type} (r : result A) : prog A :=
  match r with
  | Ok a => Ret a
  | Raise e => Throw e
  end.

(** A call that returns, and a call that may raise. *)
Definition call {X : Type} (c : cmd X) : prog X := Do c Ret.
Definition call_r {X : Type} (c : cmd (result X)) : prog X := Do c lift.

Definition logging_info (msg : string) : prog unit := call (Logging (Log INFO msg)).
Definition logging_error (msg : string) : prog unit := call (Logging (Log ERROR msg)).
Definition logging_exception (msg : string) (e : exn) : prog unit :=
  call (Logging (LogExn ERROR msg e)).

(** [self.config[key]] *)
Definition self_config (key : string) : prog pyval :=
  GetSelf (fun self => lift (py_item (config self) key)).

(** A synchronous method of the navigator, run on [self]. *)
Definition self_call {A : Type} (method : Butler → result A) : prog A :=
  GetSelf (fun self => lift (method self)).

(** ** The handlers and the tasks *)

Section Handlers.
Context `{!PyLib}.

(** [aplay] *)
Definition aplay (filename : string) : prog unit :=
  try_except Exception
    (device ← self_config "device";
     logging_info "Aplaying speech...";;
     process ← call_r (CreateSubprocess
                         ["aplay"; filename; "--device=" +:+ py_format device]);
     done ← call (Communicate process);
     if returncode done =? 0 then logging_info "Aplay succesfully"
     else
       err ← lift (stderr_decode done);
       logging_error ("Aplay error: " +:+ err))
    (fun error => logging_exception "Aplay exception: " error).

(** The [try] block of [volume].  After the mixer has exited with status
    zero, line 135 reads the name [path], which is bound neither in the
    function nor in the module nor among the builtins: evaluating it
    raises [NameError], and the call of [aplay] on the next line (a bare
    name, unbound as well) is never reached. *)
Definition volume_try (level : string) : prog unit :=
  logging_info "Setting volume...";;
  process ← call_r (CreateSubprocess
                      ["amixer"; "-c 0"; "set"; "Master"; level +:+ "%"]);
  done ← call (Communicate process);
  if returncode done =? 0 then
    logging_info "Set volume succesfully";;
    filename ← self_config "sounds_path";
    Throw (NameError "path")
  else
    err ← lift (stderr_decode done);
    logging_error ("Set volume error: " +:+ err).

(** [volume] *)
Definition volume (level : string) : prog unit :=
  try_except Exception
    (volume_try level)
    (fun error => logging_exception "Set volume exception: " error).

(** [play] *)
Definition play (sound : string) : prog unit :=
  try_except Exception
    (filename ← self_config "sounds_path";
     filename ← lift (os_path_join filename (sound +:+ ".wav"));
     aplay filename)
    (fun error => logging_exception "Play exception: " error).

(** [say] *)
Definition say (speech : string) : prog unit :=
  try_except Exception
    (model ← self_config "model";
     filename ← self_config "speech_path";
     filename ← lift (os_path_join filename (speech +:+ ".wav"));
     cached ← call (IsFile filename);
     (if cached : bool then Ret tt
      else
        logging_info "Synthesizing speech...";;
        voice ← call_r (PiperLoad model);
        wf ← call_r (WaveOpen filename);
        call_r (Synthesize voice speech wf));;
     aplay filename)
    (fun error => logging_exception "Speech exception: " error).

(** [self.set_scripts(payload)], run on the shared object. *)
Definition self_set_scripts (names : string) : prog unit :=
  GetSelf (fun self =>
    let '(self', records) := set_scripts names self in
    SetSelf self' (foldr (fun r k => call (Logging r);; k) (Ret tt) records)).

(** [gpi_listener]: the two GPIO calls before the loop. *)
Definition gpi_listener_setup : prog unit :=
  call_r (GpioSetup 16).

(** [gpi_listener]: one pass through the body of [while True].  Nothing
    here is inside a [try]. *)
Definition gpi_listener_body : prog unit :=
  high ← call (GpioInput 16);
  (if high : bool then Ret tt
   else
     logging_info "Button pressed";;
     filename ← self_config "sounds_path";
     filename ← lift (os_path_join filename "beep.wav");
     prefix ← self_config "mqtt_prefix";
     action ← self_call get_current;
     publisher ← GetSelf (fun self =>
       match mqtt_client self with
       | Some c => Ret c
       | None => Throw (AttributeError "publish")
       end);
     call_r (Publish publisher (py_format prefix +:+ "/action") "button pressed");;
     aplay filename);;
  call_r (Sleep (PFloat "0.2")).

(** The four [if]s of [mqtt_listener], each looked at in turn. *)
Definition dispatch (prefix : pyval) (msg : message) (payload : string) : prog unit :=
  m ← lift (topic_matches msg (py_format prefix +:+ "/say"));
  (if m : bool then say payload else Ret tt);;
  m ← lift (topic_matches msg (py_format prefix +:+ "/volume"));
  (if m : bool then volume payload else Ret tt);;
  m ← lift (topic_matches msg (py_format prefix +:+ "/play"));
  (if m : bool then play payload else Ret tt);;
  m ← lift (topic_matches msg (py_format prefix +:+ "/scripts"));
  (if m : bool then self_set_scripts payload else Ret tt).

(** [mqtt_listener] up to the loop: the configuration, the connection,
    the subscription. *)
Definition mqtt_listener_setup : prog (client * pyval * pyval) :=
  host ← self_config "mqtt_host";
  prefix ← self_config "mqtt_prefix";
  interval ← self_config "interval";
  c ← call_r (Connect host);
  GetSelf (fun self => SetSelf (with_mqtt_client (Some c) self) (Ret tt));;
  call_r (Subscribe c (py_format prefix +:+ "/#"));;
  Ret (c, prefix, interval).

(** [mqtt_listener]: the next message of [client.messages] handled inside
    the [try], whose [except] clause covers [aiomqtt.MqttError] only. *)
Definition mqtt_listener_body (c : client) (prefix interval : pyval) : prog unit :=
  try_except aiomqtt_MqttError
    (msg ← call_r (NextMessage c);
     payload ← lift (payload_decode msg);
     logging_info ("Mqtt listener message received; topic: " +:+ topic_value msg
                   +:+ ", payload: " +:+ payload);;
     dispatch prefix msg payload)
    (fun error =>
       logging_info "Mqtt listener reconnecting...";;
       call_r (Sleep interval)).

(** [clock_worker]: one pass through the body of [while True]. *)
Definition clock_worker_body (interval : pyval) : prog unit :=
  now ← call Now;
  logging_info now;;
  call_r (Sleep interval).

End Handlers.

(** ** Running one coroutine against its environment *)

(** A performed call together with what it returned. *)
Inductive event : Type :=
| Ev {X : Type} (c : cmd X) (x : X).

(** The environment of one run: what each call returns. *)
Definition oracle : Type := ∀ X : Type, cmd X → X.

(** [run o p self]: the outcome of [p], the attributes of [self] at the
    end, and the calls made, in order. *)
Fixpoint run {A : Type} (o : oracle) (p : prog A) (self : Butler)
  : result A * Butler * list event :=
  match p with
  | Ret a => (Ok a, self, [])
  | Throw e => (Raise e, self, [])
  | GetSelf k => run o (k self) self
  | SetSelf self' k => run o k self'
  | Do c k =>
      let x := o _ c in
      let '(r, self', tr) := run o (k x) self in
      (r, self', Ev c x :: tr)
  end.

Definition outcome {A : Type} (r : result A * Butler * list event) : result A := r.1.1.
Definition trace {A : Type} (r : result A * Butler * list event) : list event := r.2.

(** The events that start a process running the program [name]. *)
Definition spawns (name : string) (ev : event) : bool :=
  match ev with
  | @Ev _ (CreateSubprocess (exe :: _)) _ => String.eqb exe name
  | _ => false
  end.

(** ** The three tasks under the event loop *)

(** [main] starts three tasks in one [asyncio.TaskGroup]. *)
Inductive task : Type := Listener | Button | Clock.

#[global] Instance task_eq_dec : EqDecision task.
Proof. solve_decision. Defined.

(** A task's coroutine: still in the code before its [while True] (which
    ends by handing over the loop body, with the locals it has read), or
    inside the loop with [now] left of the current pass, or left by an
    exception. *)
Inductive coroutine : Type :=
| Starting (setup : prog (prog unit))
| Looping (now again : prog unit)
| Crashed (e : exn).

(** A subprocess: the task that created it, its command line, and its
    exit status once it has exited. *)
Record process : Type := mkProcess {
  owner : task;
  argv : list string;
  exit_status : option Z;
}.

Record system : Type := mkSystem {
  butler : Butler;
  listener : coroutine;
  button : coroutine;
  clock : coroutine;
  processes : list process;
}.

Definition coroutine_of (t : task) (s : system) : coroutine :=
  match t with
  | Listener => listener s
  | Button => button s
  | Clock => clock s
  end.

Definition with_task (t : task) (co : coroutine) (self : Butler)
    (procs : list process) (s : system) : system :=
  match t with
  | Listener => mkSystem self co (button s) (clock s) procs
  | Button => mkSystem self (listener s) co (clock s) procs
  | Clock => mkSystem self (listener s) (button s) co procs
  end.

(** What a call of task [t] returns when the environment proposes [x],
    and the process table afterwards.  [create_subprocess_exec] either
    raises or starts a new process, whose pid is the next free index;
    [communicate] returns only once the process has exited, with its exit
    status; every other call returns what the environment proposes. *)
Definition answer {X : Type} (t : task) (c : cmd X) (procs : list process)
  : X → option (X * list process) :=
  match c in cmd X return X → option (X * list process) with
  | CreateSubprocess argv => fun x =>
      match x with
      | Ok _ => Some (Ok (length procs), (procs ++ [mkProcess t argv None])%list)
      | Raise e => Some (Raise e, procs)
      end
  | Communicate p => fun x =>
      code ← procs !! p ≫= exit_status;
      Some (mkCompleted code (stderr_decode x), procs)
  | _ => fun x => Some (x, procs)
  end.

(** One step of a method body of task [t]. *)
Definition resume {A : Type} (o : oracle) (t : task) (p : prog A)
    (self : Butler) (procs : list process)
  : option (prog A * Butler * list process) :=
  match p with
  | Ret _ | Throw _ => None
  | GetSelf k => Some (k self, self, procs)
  | SetSelf self' k => Some (k, self', procs)
  | Do c k =>
      '(x, procs') ← answer t c procs (o _ c);
      Some (k x, self, procs')
  end.

(** One step of a coroutine: the end of the setup enters the loop, the
    end of a pass starts the next one, an exception that reaches the top
    ends the coroutine. *)
Definition advance (o : oracle) (t : task) (co : coroutine)
    (self : Butler) (procs : list process)
  : option (coroutine * Butler * list process) :=
  match co with
  | Starting (Ret body) => Some (Looping body body, self, procs)
  | Starting (Throw e) => Some (Crashed e, self, procs)
  | Starting setup =>
      '(setup', self', procs') ← resume o t setup self procs;
      Some (Starting setup', self', procs')
  | Looping (Ret _) again => Some (Looping again again, self, procs)
  | Looping (Throw e) _ => Some (Crashed e, self, procs)
  | Looping now again =>
      '(now', self', procs') ← resume o t now self procs;
      Some (Looping now' again, self', procs')
  | Crashed _ => None
  end.

(** What happens next: a task takes a step with the environment [o], or
    a running process exits. *)
Inductive choice : Type :=
| Advance (t : task) (o : oracle)
| ProcessExit (p : pid) (code : Z).

(** One step of the group.  A coroutine that has been left by an
    exception takes no further step ([advance] has none for it).  The
    task group then asks the other tasks to stop, and each of them is
    stopped only at its next suspension point: until then it runs on.
    That cancellation is not part of the model, in which the other tasks
    keep going; every state of the program is among the reachable ones. *)
Definition fire (ch : choice) (s : system) : option system :=
  match ch with
  | Advance t o =>
      '(co, self, procs) ← advance o t (coroutine_of t s) (butler s) (processes s);
      Some (with_task t co self procs s)
  | ProcessExit p code =>
      proc ← processes s !! p;
      match exit_status proc with
      | Some _ => None
      | None =>
          Some (mkSystem (butler s) (listener s) (button s) (clock s)
                  (<[p := mkProcess (owner proc) (argv proc) (Some code)]> (processes s)))
      end
  end.

Fixpoint fire_all (chs : list choice) (s : system) : option system :=
  match chs with
  | [] => Some s
  | ch :: chs' => s' ← fire ch s; fire_all chs' s'
  end.

Section Tasks.
Context `{!PyLib}.

Definition mqtt_listener : coroutine :=
  Starting ('(c, prefix, interval) ← mqtt_listener_setup;
            Ret (mqtt_listener_body c prefix interval)).

Definition gpi_listener : coroutine :=
  Starting (gpi_listener_setup;; Ret gpi_listener_body).

Definition clock_worker : coroutine :=
  Starting (interval ← self_config "interval";
            Ret (clock_worker_body interval)).

(** [main]: the object is built, the three tasks are created. *)
Definition boot (cfg : pyval) : system :=
  mkSystem (init cfg) mqtt_listener gpi_listener clock_worker [].

Definition reachable (cfg : pyval) (s : system) : Prop :=
  ∃ chs : list choice, fire_all chs (boot cfg) = Some s.

End Tasks.

(** The process [p] is running a playback ([aplay]) in [s]. *)
Definition playing (s : system) (p : pid) : Prop :=
  ∃ proc : process,
    processes s !! p = Some proc
    ∧ head (argv proc) = Some "aplay"
    ∧ exit_status proc = None.

(** ** A discipline on method bodies *)

(** The process a task waits for after the call [c] has returned [x],
    when it waited for [held] before; [None] when the call is out of
    order: a second [create_subprocess_exec] before the [communicate] of
    the first, or a [communicate] on another process. *)
Definition next_held {X : Type} (c : cmd X) (held : option pid)
  : X → option (option pid) :=
  match c in cmd X return X → option (option pid) with
  | CreateSubprocess _ => fun x =>
      match held, x with
      | None, Ok p => Some (Some p)
      | None, Raise _ => Some None
      | Some _, _ => None
      end
  | Communicate p => fun _ =>
      if bool_decide (held = Some p) then Some None else None
  | _ => fun _ => Some held
  end.

(** [tidy Q held p]: the body [p], entered while the task waits for the
    process [held] (if any), calls [communicate] on that process before it
    creates another one, raises only while it waits for none, and returns
    only values [a], waiting for [held'], such that [Q a held']. *)
Fixpoint tidy {A : Type} (Q : A → option pid → Prop) (held : option pid)
    (p : prog A) : Prop :=
  match p with
  | Ret a => Q a held
  | Throw _ => held = None
  | GetSelf k => ∀ self, tidy Q held (k self)
  | SetSelf _ k => tidy Q held k
  | Do c k => ∀ x, ∃ held', next_held c held x = Some held' ∧ tidy Q held' (k x)
  end.

(** The postcondition of a whole method: no process is waited for. *)
Definition released {A : Type} (a : A) (held : option pid) : Prop := held = None.

Definition coroutine_tidy (held : option pid) (co : coroutine) : Prop :=
  match co with
  | Starting setup =>
      tidy (fun body held' => held' = None ∧ tidy released None body) held setup
  | Looping now again => tidy released held now ∧ tidy released None again
  | Crashed _ => held = None
  end.

(** Every process of task [t] that has not exited is [held]. *)
Definition waits_for (t : task) (held : option pid) (procs : list process) : Prop :=
  ∀ (p : pid) (proc : process),
    procs !! p = Some proc → owner proc = t → exit_status proc = None →
    held = Some p.

(** The invariant of the task group: each task is inside a tidy body and
    has no running process besides the one it waits for. *)
Definition serial (s : system) : Prop :=
  ∀ t : task, ∃ held : option pid,
    coroutine_tidy held (coroutine_of t s) ∧ waits_for t held (processes s).

(** ** Concrete payloads, states and environments *)

(** The JSON text of a string without special characters, and of an array
    of such strings. *)
Definition json_string (s : string) : string :=
  String Json.dquote (s +:+ String Json.dquote EmptyString).

Definition json_array (ids : list string) : string :=
  "[" +:+ String.concat "," (json_string <$> ids) +:+ "]".

(** A configuration with every entry that the methods read. *)
Definition sample_config : pyval :=
  PDict (list_to_map
    [("mqtt_host", PStr "localhost"); ("mqtt_prefix", PStr "butler");
     ("interval", PInt 60); ("sounds_path", PStr "/opt/sounds");
     ("speech_path", PStr "/opt/speech"); ("model", PStr "/opt/voice.onnx");
     ("device", PStr "default")]).

(** A configuration that has the bus entries but no [sounds_path]. *)
Definition config_without_sounds : pyval :=
  PDict (list_to_map
    [("mqtt_host", PStr "localhost"); ("mqtt_prefix", PStr "butler");
     ("interval", PInt 60)]).

(** The message [topic]: [payload] on the bus; its topic matches exactly
    the wildcard equal to it. *)
Definition bus_message (topic payload : string) : message :=
  mkMessage topic (fun wildcard => Ok (String.eqb topic wildcard)) (Ok payload).

(** An environment in which every call succeeds: processes start and
    exit with status zero, files exist, the bus delivers [msg], and the
    button line reads [line] (low when the button is held down). *)
Definition world (msg : message) (line : bool) : oracle := fun X c =>
  match c in cmd X return X with
  | Logging _ => tt
  | CreateSubprocess _ => Ok 0%nat
  | Communicate _ => mkCompleted 0 (Ok EmptyString)
  | IsFile _ => true
  | PiperLoad model => Ok (Voice model)
  | WaveOpen filename => Ok (WaveWrite filename)
  | Synthesize _ _ _ => Ok tt
  | Connect host => Ok (Client host)
  | Subscribe _ _ => Ok tt
  | NextMessage _ => Ok msg
  | Publish _ _ _ => Ok tt
  | GpioSetup _ => Ok tt
  | GpioInput _ => line
  | Sleep _ => Ok tt
  | Now => "Thu, Jan 01 00:00 AM"
  end.

(** The same, except that publishing fails with [MqttError]. *)
Definition world_without_broker (msg : message) (line : bool) : oracle := fun X c =>
  match c in cmd X return X with
  | Publish _ _ _ => Raise MqttError
  | c' => world msg line _ c'
  end.

(** A schedule of the task group: the listener reads its configuration
    and asks for the connection (3 steps); the button task sets up the
    line and makes one pass with the line high (5 steps); the listener
    connects, subscribes, receives [butler/say] and creates its [aplay]
    process (13 steps); the button task then sees the line low and
    creates its own [aplay] process (10 steps). *)
Definition say_then_beep : list choice :=
  let idle := world (bus_message "butler/say" "hello") true in
  let pressed := world (bus_message "butler/say" "hello") false in
  (replicate 3 (Advance Listener idle)
   ++ replicate 5 (Advance Button idle)
   ++ replicate 13 (Advance Listener idle)
   ++ replicate 10 (Advance Button pressed))%list.

(** ** What a method body can do *)

(** [readonly p]: the body [p] never assigns an attribute of [self]. *)
Fixpoint readonly {A : Type} (p : prog A) : Prop :=
  match p with
  | Ret _ | Throw _ => True
  | GetSelf k => ∀ self, readonly (k self)
  | SetSelf _ _ => False
  | Do _ k => ∀ x, readonly (k x)
  end.

(** [confined P p]: every call that the body [p] can make, with whatever
    the call returns, satisfies [P]. *)
Fixpoint confined {A : Type} (P : event → Prop) (p : prog A) : Prop :=
  match p with
  | Ret _ | Throw _ => True
  | GetSelf k => ∀ self, confined P (k self)
  | SetSelf _ k => confined P k
  | Do c k => ∀ x, P (Ev c x) ∧ confined P (k x)
  end.

(** The events of the speech synthesis: loading the voice, opening the
    wave file, rendering. *)
Definition synthesizes (ev : event) : bool :=
  match ev with
  | @Ev _ (PiperLoad _) _ | @Ev _ (WaveOpen _) _ | @Ev _ (Synthesize _ _ _) _ => true
  | _ => false
  end.

(** The events that create a process, whatever the program. *)
Definition creates_process (ev : event) : bool :=
  match ev with
  | @Ev _ (CreateSubprocess _) _ => true
  | _ => false
  end.

(** The log record with which [aplay] ends once its process has exited. *)
Definition aplay_report (done : completed) : logrec :=
  if returncode done =? 0 then Log INFO "Aplay succesfully"
  else
    match stderr_decode done with
    | Ok err => Log ERROR ("Aplay error: " +:+ err)
    | Raise e => LogExn ERROR "Aplay exception: " e
    end.

(** ** More environments *)

(** As [world], except that every process exits with status [code] and
    the text [err] on its standard error. *)
Definition world_exiting (code : Z) (err : string) (msg : message) (line : bool)
  : oracle := fun X c =>
  match c in cmd X return X with
  | Communicate _ => mkCompleted code (Ok err)
  | c' => world msg line _ c'
  end.

(** As [world], except that no speech file exists yet and the voice model
    cannot be loaded. *)
Definition world_without_voice (msg : message) (line : bool) : oracle := fun X c =>
  match c in cmd X return X with
  | IsFile _ => false
  | PiperLoad _ => Raise OSError
  | c' => world msg line _ c'
  end.

(** As [world], except that waiting for the next message fails with
    [MqttError]. *)
Definition world_disconnected (msg : message) (line : bool) : oracle := fun X c =>
  match c in cmd X return X with
  | NextMessage _ => Raise MqttError
  | c' => world msg line _ c'
  end.

(** A message whose payload is not valid UTF-8. *)
Definition undecodable_message (topic : string) : message :=
  mkMessage topic (fun wildcard => Ok (String.eqb topic wildcard))
    (Raise UnicodeDecodeError).

(** ** The cursor invariant *)

(** The script list has a length and the cursor is one of its indices. *)
Definition in_range (self : Butler) : Prop :=
  ∃ n p : Z,
    py_len (script_list self) = Ok n
    ∧ current_position self = Some p
    ∧ 0 ≤ p < n.

(** As [world], except that no speech file exists yet. *)
Definition world_without_speech_file (msg : message) (line : bool) : oracle := fun X c =>
  match c in cmd X return X with
  | IsFile _ => false
  | c' => world msg line _ c'
  end.

(** A call that creates a process runs [aplay] or [amixer]. *)
Definition runs_known_program (ev : event) : Prop :=
  creates_process ev = true → spawns "aplay" ev = true ∨ spawns "amixer" ev = true.

(** * Properties *)

(** ** The navigator *)

Lemma with_current_position_same (self : Butler) (p : option Z) :
  current_position self = p → with_current_position p self = self.
Proof. destruct self; simpl; intros ->; reflexivity. Qed.

Lemma with_current_position_twice (self : Butler) (p q : option Z) :
  with_current_position q (with_current_position p self) = with_current_position q self.
Proof. reflexivity. Qed.

Lemma seq_getitem_lookup {A : Type} (l : list A) (i : nat) (x : A) :
  l !! i = Some x → seq_getitem l (Z.of_nat i) = Ok x.
Proof.
  intros Hx. pose proof (lookup_lt_Some _ _ _ Hx) as Hlt.
  unfold seq_getitem.
  destruct (Z.ltb_spec (Z.of_nat i) 0) as [Hn|_]; [lia|].
  destruct (Z.leb_spec 0 (Z.of_nat i)) as [_|Hn]; [|lia].
  destruct (Z.ltb_spec (Z.of_nat i) (Z.of_nat (length l))) as [_|Hn]; [|lia].
  simpl. rewrite Nat2Z.id, Hx. reflexivity.
Qed.

Lemma seq_getitem_out_of_range {A : Type} (l : list A) (i : Z) :
  Z.of_nat (length l) ≤ i → seq_getitem l i = Raise IndexError.
Proof.
  intros Hi. unfold seq_getitem.
  destruct (Z.ltb_spec i 0) as [Hn|_]; [lia|].
  destruct (Z.ltb_spec i (Z.of_nat (length l))) as [Hn|_]; [lia|].
  rewrite andb_false_r. reflexivity.
Qed.

(** One more [inc_current] below the last index moves the cursor up. *)
Lemma inc_current_below_last (self : Butler) (n p : Z) :
  py_len (script_list self) = Ok n →
  current_position self = Some p →
  p < n - 1 →
  inc_current self = Ok (with_current_position (Some (p + 1)) self).
Proof.
  intros Hn Hp Hlt. unfold inc_current. rewrite Hn, Hp. simpl.
  destruct (Z.ltb_spec p (n - 1)); [reflexivity | lia].
Qed.

(** At or past the last index, [inc_current] wraps to the front. *)
Lemma inc_current_at_last (self : Butler) (n p : Z) :
  py_len (script_list self) = Ok n →
  current_position self = Some p →
  n - 1 ≤ p →
  inc_current self = Ok (with_current_position (Some 0) self).
Proof.
  intros Hn Hp Hge. unfold inc_current. rewrite Hn, Hp. simpl.
  destruct (Z.ltb_spec p (n - 1)); [lia | reflexivity].
Qed.

(** [k] increments that stay below the last index add [k]. *)
Lemma repeat_inc_current (k : nat) : ∀ (self : Butler) (n p : Z),
  py_len (script_list self) = Ok n →
  current_position self = Some p →
  p + Z.of_nat k ≤ n - 1 →
  repeat_call k inc_current self
  = Ok (with_current_position (Some (p + Z.of_nat k)) self).
Proof.
  induction k as [|k IH]; intros self n p Hn Hp Hle.
  - simpl. rewrite Z.add_0_r, with_current_position_same; done.
  - cbn [repeat_call].
    rewrite (inc_current_below_last self n p) by (done || lia).
    cbn [mbind result_bind].
    rewrite (IH _ n (p + 1)) by (done || lia).
    rewrite with_current_position_twice. do 3 f_equal. lia.
Qed.

Lemma repeat_call_succ_r {A : Type} (k : nat) (f : A → result A) : ∀ a : A,
  repeat_call (S k) f a = repeat_call k f a ≫= f.
Proof.
  induction k as [|k IH]; intros a.
  - simpl. destruct (f a); reflexivity.
  - change (repeat_call (S (S k)) f a) with (f a ≫= repeat_call (S k) f).
    change (repeat_call (S k) f a) with (f a ≫= repeat_call k f).
    destruct (f a) as [a'|e]; simpl; [apply IH | reflexivity].
Qed.

Section NavigatorFacts.
Context `{!PyLib}.

Lemma set_scripts_nonempty (names : string) (v : pyval) (n : Z) (self : Butler) :
  json_loads names = Ok v → py_len v = Ok n → 0 < n →
  set_scripts names self
  = (with_current_position (Some 0) (with_script_list v self), []).
Proof.
  intros Hv Hn Hpos. unfold set_scripts. rewrite Hv, Hn.
  destruct (Z.ltb_spec 0 n); [reflexivity | lia].
Qed.

Lemma set_scripts_empty (names : string) (v : pyval) (self : Butler) :
  json_loads names = Ok v → py_len v = Ok 0 →
  set_scripts names self = (with_script_list v self, []).
Proof. intros Hv Hn. unfold set_scripts. rewrite Hv, Hn. reflexivity. Qed.

(** C7. After [set_scripts] on a JSON array of N ≥ 1 strings,
    [get_current] returns the first string of the array; [k < N] calls of
    [inc_current] put the cursor on the string of index [k], and exactly
    [N] calls bring the object back to the state right after
    [set_scripts], cursor on the first string. *)
Theorem set_scripts_then_cycle (names : string) (first : string)
    (rest : list string) (self : Butler) :
  json_loads names = Ok (PList (PStr <$> first :: rest)) →
  let self' := (set_scripts names self).1 in
  get_current self' = Ok (PStr first)
  ∧ (∀ (k : nat) (id : string), (first :: rest) !! k = Some id →
       repeat_call k inc_current self' ≫= get_current = Ok (PStr id))
  ∧ repeat_call (length (first :: rest)) inc_current self' = Ok self'
  ∧ repeat_call (length (first :: rest)) inc_current self' ≫= get_current
    = Ok (PStr first).
Proof.
  intros Hv self'.
  set (ids := first :: rest) in *.
  set (v := PList (PStr <$> ids)) in *.
  assert (Hlen : py_len v = Ok (Z.of_nat (length ids))).
  { unfold v. simpl. rewrite length_fmap. reflexivity. }
  assert (Hself' : self' = with_current_position (Some 0) (with_script_list v self)).
  { unfold self'. rewrite (set_scripts_nonempty names v _ self Hv Hlen);
      [reflexivity | unfold ids; simpl; lia]. }
  assert (Hsteps : ∀ k : nat, (k < length ids)%nat →
            repeat_call k inc_current self'
            = Ok (with_current_position (Some (Z.of_nat k)) self')).
  { intros k Hk.
    rewrite (repeat_inc_current k self' (Z.of_nat (length ids)) 0).
    - rewrite Z.add_0_l. reflexivity.
    - rewrite Hself'. exact Hlen.
    - rewrite Hself'. reflexivity.
    - lia. }
  assert (Hget : ∀ (k : nat) (id : string), ids !! k = Some id →
            get_current (with_current_position (Some (Z.of_nat k)) self')
            = Ok (PStr id)).
  { intros k id Hid. rewrite Hself'. unfold get_current, v.
    cbn [current_position script_list with_current_position with_script_list py_index].
    apply seq_getitem_lookup. rewrite list_lookup_fmap, Hid. reflexivity. }
  assert (Hcycle : repeat_call (length ids) inc_current self' = Ok self').
  { unfold ids at 1. cbn [length]. rewrite repeat_call_succ_r.
    rewrite Hsteps by (unfold ids; simpl; lia).
    cbn [mbind result_bind].
    rewrite (inc_current_at_last _ (Z.of_nat (length ids)) (Z.of_nat (length rest))).
    - rewrite with_current_position_twice.
      rewrite with_current_position_same; [reflexivity | rewrite Hself'; reflexivity].
    - rewrite Hself'. exact Hlen.
    - reflexivity.
    - unfold ids. cbn [length]. lia. }
  assert (Hfirst : get_current self' = Ok (PStr first)).
  { rewrite <- (with_current_position_same self' (Some (Z.of_nat 0)))
      by (rewrite Hself'; reflexivity).
    apply Hget. reflexivity. }
  split; [exact Hfirst|]. split; [|split].
  - intros k id Hid. rewrite Hsteps by (eapply lookup_lt_Some; exact Hid).
    cbn [mbind result_bind]. apply Hget, Hid.
  - exact Hcycle.
  - rewrite Hcycle. exact Hfirst.
Qed.

End NavigatorFacts.

(** C8. On a script list of length N with the cursor on a valid index,
    [dec_current] from index 0 lands on N-1, and [dec_current] undoes
    [inc_current] and conversely, at every index. *)
Theorem dec_current_inverts_inc_current (self : Butler) (n p : Z) :
  py_len (script_list self) = Ok n →
  current_position self = Some p →
  0 ≤ p < n →
  (p = 0 → dec_current self = Ok (with_current_position (Some (n - 1)) self))
  ∧ inc_current self ≫= dec_current = Ok self
  ∧ dec_current self ≫= inc_current = Ok self.
Proof.
  intros Hn Hp Hrange. split; [|split].
  - intros ->. unfold dec_current. rewrite Hp, Hn. reflexivity.
  - unfold inc_current. rewrite Hn, Hp. cbn [mbind result_bind].
    destruct (Z.ltb_spec p (n - 1)) as [Hlt|Hge]; cbn [mbind result_bind];
      unfold dec_current; cbn [current_position with_current_position script_list].
    + destruct (Z.ltb_spec 0 (p + 1)) as [_|Hbad]; [|lia].
      rewrite with_current_position_twice, Z.add_simpl_r.
      rewrite with_current_position_same; done.
    + rewrite Hn. cbn [Z.ltb Z.compare mbind result_bind].
      rewrite with_current_position_twice.
      rewrite with_current_position_same; [done | rewrite Hp; f_equal; lia].
  - unfold dec_current. rewrite Hp.
    destruct (Z.ltb_spec 0 p) as [Hpos|Hzero]; cbn [mbind result_bind].
    + rewrite (inc_current_below_last _ n (p - 1)) by (done || lia).
      rewrite with_current_position_twice, Z.sub_add.
      rewrite with_current_position_same; done.
    + rewrite Hn. cbn [mbind result_bind].
      rewrite (inc_current_at_last _ n (n - 1)) by (done || lia).
      rewrite with_current_position_twice.
      rewrite with_current_position_same; [done | rewrite Hp; f_equal; lia].
Qed.

(** [set_favorite] stores nothing when the cursor is on index 0. *)
Lemma set_favorite_at_zero (index : Z) (self : Butler) :
  current_position self = Some 0 → set_favorite index self = self.
Proof. intros Hp. unfold set_favorite. rewrite Hp. reflexivity. Qed.

(** [set_favorite] stores every other position. *)
Lemma set_favorite_nonzero (index p : Z) (self : Butler) :
  current_position self = Some p → p ≠ 0 →
  favorite_dict (set_favorite index self) !! index = Some p.
Proof.
  intros Hp Hnz. unfold set_favorite. rewrite Hp. simpl.
  destruct (Z.eqb_spec p 0); [done|]. simpl. apply lookup_insert_eq.
Qed.

(** [get_favorite] on a slot whose stored index is past the end of the
    current list. *)
Lemma get_favorite_past_end (index pos : Z) (l : list pyval) (self : Butler) :
  favorite_dict self !! index = Some pos →
  script_list self = PList l →
  Z.of_nat (length l) ≤ pos →
  get_favorite index self = Raise IndexError.
Proof.
  intros Hpos Hl Hge. unfold get_favorite. rewrite Hpos, Hl. simpl.
  apply seq_getitem_out_of_range, Hge.
Qed.

Section NavigatorOnJson.
#[local] Existing Instance json_library.

(** C7, at the payload [["a","b","c"]]. *)
Lemma set_scripts_then_cycle_witness :
  json_loads (json_array ["a"; "b"; "c"])
  = Ok (PList (PStr <$> ["a"; "b"; "c"]))
  ∧ let self' := (set_scripts (json_array ["a"; "b"; "c"]) (init PNone)).1 in
    get_current self' = Ok (PStr "a")
    ∧ (∀ (k : nat) (id : string), ["a"; "b"; "c"] !! k = Some id →
         repeat_call k inc_current self' ≫= get_current = Ok (PStr id))
    ∧ repeat_call 3 inc_current self' = Ok self'
    ∧ repeat_call 3 inc_current self' ≫= get_current = Ok (PStr "a").
Proof.
  split; [vm_compute; reflexivity|].
  apply (set_scripts_then_cycle (json_array ["a"; "b"; "c"]) "a" ["b"; "c"] (init PNone)).
  vm_compute; reflexivity.
Defined.

(** C8, on the list [["a","b","c"]] with the cursor on index 0. *)
Lemma dec_current_inverts_inc_current_witness :
  let self := (set_scripts (json_array ["a"; "b"; "c"]) (init PNone)).1 in
  py_len (script_list self) = Ok 3
  ∧ current_position self = Some 0
  ∧ (0 = 0 → dec_current self = Ok (with_current_position (Some (3 - 1)) self))
  ∧ inc_current self ≫= dec_current = Ok self
  ∧ dec_current self ≫= inc_current = Ok self.
Proof.
  intros self.
  split; [vm_compute; reflexivity|]. split; [vm_compute; reflexivity|].
  apply (dec_current_inverts_inc_current self 3 0);
    [vm_compute; reflexivity | vm_compute; reflexivity | lia].
Defined.

(** C2. A favorite stored in slot 7 while the cursor is on index 1 of a
    two-element list, looked up after the list has been replaced by a
    one-element list: the slot still holds 1, and [get_favorite] raises
    [IndexError]. *)
Theorem get_favorite_after_shorter_list (cfg : pyval) :
  let s1 := (set_scripts (json_array ["a"; "b"]) (init cfg)).1 in
  ∃ s2 : Butler,
    inc_current s1 = Ok s2
    ∧ let s3 := set_favorite 7 s2 in
      let s4 := (set_scripts (json_array ["a"]) s3).1 in
      favorite_dict s3 !! 7 = Some 1
      ∧ favorite_dict s4 !! 7 = Some 1
      ∧ script_list s4 = PList [PStr "a"]
      ∧ get_favorite 7 s4 = Raise IndexError.
Proof.
  intros s1. eexists. split; [vm_compute; reflexivity|].
  repeat split; vm_compute; reflexivity.
Qed.

(** C3. [set_scripts] with a non-empty array and then with the empty
    array: the list is empty, the position is still 0, and [get_current]
    raises [IndexError]. *)
Theorem set_scripts_empty_keeps_position (cfg : pyval) :
  let s1 := (set_scripts (json_array ["a"]) (init cfg)).1 in
  let s2 := (set_scripts "[]" s1).1 in
  current_position s1 = Some 0
  ∧ script_list s2 = PList []
  ∧ current_position s2 = Some 0
  ∧ get_current s2 = Raise IndexError.
Proof. repeat split; vm_compute; reflexivity. Qed.

(** C5. On the freshly built object (empty list, no position)
    [inc_current] and [dec_current] raise [TypeError]; on a list emptied
    by [set_scripts] with the position left at 0, [dec_current] moves the
    position to -1. *)
Theorem inc_dec_current_on_empty_list (cfg : pyval) :
  script_list (init cfg) = PList []
  ∧ inc_current (init cfg) = Raise TypeError
  ∧ dec_current (init cfg) = Raise TypeError
  ∧ let s := (set_scripts "[]" (set_scripts (json_array ["a"]) (init cfg)).1).1 in
    script_list s = PList []
    ∧ dec_current s = Ok (with_current_position (Some (-1)) s).
Proof. repeat split; vm_compute; reflexivity. Qed.

(** C6. With the cursor on index 0 after [set_scripts], [set_favorite]
    changes nothing: the slot stays unassigned and [get_favorite]
    returns [None]. *)
Theorem set_favorite_ignores_position_zero (cfg : pyval) (slot : Z) :
  let self := (set_scripts (json_array ["a"; "b"]) (init cfg)).1 in
  current_position self = Some 0
  ∧ set_favorite slot self = self
  ∧ favorite_dict (set_favorite slot self) !! slot = None
  ∧ get_favorite slot (set_favorite slot self) = Ok PNone.
Proof.
  intros self.
  assert (Hp : current_position self = Some 0) by (vm_compute; reflexivity).
  rewrite (set_favorite_at_zero slot self Hp).
  repeat split; done.
Qed.

(** C4, counterexample: the payload ["abc"] is valid JSON but a string,
    not a list; [set_scripts] stores it as the script list, sets the
    position to 0 and logs nothing. *)
Lemma set_scripts_accepts_json_string :
  let self := init PNone in
  json_loads (json_string "abc") = Ok (PStr "abc")
  ∧ script_list (set_scripts (json_string "abc") self).1 = PStr "abc"
  ∧ script_list (set_scripts (json_string "abc") self).1 ≠ script_list self
  ∧ current_position (set_scripts (json_string "abc") self).1 ≠ current_position self
  ∧ (set_scripts (json_string "abc") self).2 = [].
Proof. repeat split; try (vm_compute; reflexivity); vm_compute; discriminate. Qed.

End NavigatorOnJson.

Section SetScriptsErrors.
Context `{!PyLib}.

(** C4, amended. When [json.loads] raises on the payload, [set_scripts]
    leaves every attribute of the object as it was and logs the error
    ["Unable to parse script list"]. *)
Theorem set_scripts_invalid_json (names : string) (e : exn) (self : Butler) :
  json_loads names = Raise e →
  set_scripts names self = (self, [Log ERROR "Unable to parse script list"]).
Proof. intros He. unfold set_scripts. rewrite He. reflexivity. Qed.

End SetScriptsErrors.

(** C4, amended, at the payload ["["]. *)
Lemma set_scripts_invalid_json_witness :
  @json_loads json_library "[" = Raise JSONDecodeError
  ∧ @set_scripts json_library "[" (init PNone)
    = (init PNone, [Log ERROR "Unable to parse script list"]).
Proof.
  split; [vm_compute; reflexivity|].
  apply (@set_scripts_invalid_json json_library "[" JSONDecodeError (init PNone)).
  vm_compute; reflexivity.
Defined.

(** ** The handlers *)

Lemma outcome_Do {A X : Type} (o : oracle) (c : cmd X) (k : X → prog A) (self : Butler) :
  outcome (run o (Do c k) self) = outcome (run o (k (o X c)) self).
Proof.
  unfold outcome. cbn [run].
  destruct (run o (k (o X c)) self) as [[r self'] tr]. reflexivity.
Qed.

(** A [try] whose [except Exception] clause only logs lets nothing out. *)
Lemma try_except_logs (o : oracle) (msg : string) (body : prog unit) :
  ∀ self : Butler,
    outcome (run o (try_except Exception body (logging_exception msg)) self) = Ok tt.
Proof.
  induction body as [[]|e|k IH|self' k IH|X c k IH]; intros self.
  - reflexivity.
  - cbn [try_except Exception]. unfold logging_exception, call.
    rewrite outcome_Do. destruct (o unit (Logging (LogExn ERROR msg e))). reflexivity.
  - cbn [try_except run]. apply IH.
  - cbn [try_except run]. apply IH.
  - cbn [try_except]. rewrite outcome_Do. apply IH.
Qed.

Section HandlerFacts.
Context `{!PyLib}.

(** The four handlers that the bus listener awaits keep their exceptions
    to themselves. *)
Lemma aplay_returns (o : oracle) (filename : string) (self : Butler) :
  outcome (run o (aplay filename) self) = Ok tt.
Proof. apply try_except_logs. Qed.

Lemma volume_returns (o : oracle) (level : string) (self : Butler) :
  outcome (run o (volume level) self) = Ok tt.
Proof. apply try_except_logs. Qed.

Lemma play_returns (o : oracle) (sound : string) (self : Butler) :
  outcome (run o (play sound) self) = Ok tt.
Proof. apply try_except_logs. Qed.

Lemma say_returns (o : oracle) (speech : string) (self : Butler) :
  outcome (run o (say speech) self) = Ok tt.
Proof. apply try_except_logs. Qed.

End HandlerFacts.

(** C10, amended. When the mixer process of a [volume] command exits
    with status zero, the [try] block raises: [NameError] for the unbound
    name [path] if the configuration has a [sounds_path] entry, and
    otherwise the exception of that lookup.  The handler's own [except]
    clause logs it; [volume] returns normally and leaves the object
    unchanged; the calls made are the mixer process, its [communicate]
    and three log records, so no [aplay] process is created and nothing
    touches the mixer after its successful exit. *)
Theorem volume_after_successful_mixer (o : oracle) (self : Butler)
    (level : string) (process : pid) :
  o _ (CreateSubprocess ["amixer"; "-c 0"; "set"; "Master"; level +:+ "%"])
  = Ok process →
  returncode (o _ (Communicate process)) = 0 →
  let error := match py_item (config self) "sounds_path" with
               | Ok _ => NameError "path"
               | Raise e => e
               end in
  outcome (run o (volume_try level) self) = Raise error
  ∧ run o (volume level) self
    = (Ok tt, self,
       [Ev (Logging (Log INFO "Setting volume...")) tt;
        Ev (CreateSubprocess ["amixer"; "-c 0"; "set"; "Master"; level +:+ "%"])
           (Ok process);
        Ev (Communicate process) (o _ (Communicate process));
        Ev (Logging (Log INFO "Set volume succesfully")) tt;
        Ev (Logging (LogExn ERROR "Set volume exception: " error)) tt])
  ∧ (∀ ev : event, ev ∈ trace (run o (volume level) self) → spawns "aplay" ev = false).
Proof.
  intros Hspawn Hexit error.
  assert (Hunit : ∀ r, o unit (Logging r) = tt) by (intros r; destruct (o unit (Logging r)); reflexivity).
  assert (Hrun : run o (volume level) self
    = (Ok tt, self,
       [Ev (Logging (Log INFO "Setting volume...")) tt;
        Ev (CreateSubprocess ["amixer"; "-c 0"; "set"; "Master"; level +:+ "%"])
           (Ok process);
        Ev (Communicate process) (o _ (Communicate process));
        Ev (Logging (Log INFO "Set volume succesfully")) tt;
        Ev (Logging (LogExn ERROR "Set volume exception: " error)) tt])).
  { unfold volume, volume_try, logging_info, logging_error, logging_exception,
      call, call_r, self_config.
    cbn [mbind prog_mbind prog_bind try_except run].
    rewrite Hspawn. cbn [lift mbind prog_mbind prog_bind try_except run].
    rewrite Hexit. cbn [Z.eqb mbind prog_mbind prog_bind try_except run].
    rewrite !Hunit. subst error.
    destruct (py_item (config self) "sounds_path") as [sounds|e];
      cbn [lift mbind prog_mbind prog_bind try_except run Exception];
      rewrite !Hunit; reflexivity. }
  split; [|split].
  - unfold outcome, volume_try, logging_info, logging_error, call, call_r, self_config.
    cbn [mbind prog_mbind prog_bind run].
    rewrite Hspawn. cbn [lift mbind prog_mbind prog_bind run].
    rewrite Hexit. cbn [Z.eqb mbind prog_mbind prog_bind run].
    subst error.
    destruct (py_item (config self) "sounds_path") as [sounds|e]; reflexivity.
  - exact Hrun.
  - rewrite Hrun. unfold trace. cbn [snd].
    intros ev Hev. repeat (apply elem_of_cons in Hev as [->|Hev]; [reflexivity|]).
    apply elem_of_nil in Hev. contradiction.
Qed.

(** C10, amended, at the level ["50"] with the complete configuration. *)
Lemma volume_after_successful_mixer_witness :
  let o := world (bus_message "butler/volume" "50") true in
  let self := init sample_config in
  o _ (CreateSubprocess ["amixer"; "-c 0"; "set"; "Master"; "50" +:+ "%"]) = Ok 0%nat
  ∧ returncode (o _ (Communicate 0%nat)) = 0
  ∧ outcome (run o (volume_try "50") self) = Raise (NameError "path")
  ∧ run o (volume "50") self
    = (Ok tt, self,
       [Ev (Logging (Log INFO "Setting volume...")) tt;
        Ev (CreateSubprocess ["amixer"; "-c 0"; "set"; "Master"; "50%"]) (Ok 0%nat);
        Ev (Communicate 0%nat) (o _ (Communicate 0%nat));
        Ev (Logging (Log INFO "Set volume succesfully")) tt;
        Ev (Logging (LogExn ERROR "Set volume exception: " (NameError "path"))) tt])
  ∧ (∀ ev : event, ev ∈ trace (run o (volume "50") self) → spawns "aplay" ev = false).
Proof.
  intros o self.
  split; [reflexivity|]. split; [reflexivity|].
  apply (volume_after_successful_mixer o self "50" 0%nat); reflexivity.
Defined.

(** C10, counterexample: with a configuration that has no [sounds_path]
    entry, the [try] block of [volume] raises [KeyError] after the mixer
    has exited with status zero; [NameError] is not raised. *)
Lemma volume_try_raises_KeyError :
  let o := world (bus_message "butler/volume" "50") true in
  let self := init config_without_sounds in
  returncode (o _ (Communicate 0%nat)) = 0
  ∧ outcome (run o (volume_try "50") self) = Raise (KeyError (PStr "sounds_path"))
  ∧ ∀ name : string, outcome (run o (volume_try "50") self) ≠ Raise (NameError name).
Proof.
  split; [reflexivity|]. split; [vm_compute; reflexivity|].
  intros name. vm_compute. discriminate.
Qed.

Section GpiListenerOnJson.
#[local] Existing Instance json_library.

(** A coroutine that has been left by an exception stays so: its task
    never takes another step, whatever the other tasks and the processes
    do. *)
Lemma fire_keeps_crashed (ch : choice) (s s' : system) (t : task) (e : exn) :
  coroutine_of t s = Crashed e → fire ch s = Some s' →
  coroutine_of t s' = Crashed e.
Proof.
  intros Ht Hfire. destruct ch as [t' o|p code]; cbn [fire] in Hfire.
  - destruct (advance o t' (coroutine_of t' s) (butler s) (processes s))
      as [[[co self] procs]|] eqn:Hadv; [|discriminate].
    cbn in Hfire. injection Hfire as <-.
    destruct t, t'; cbn in *; try exact Ht; rewrite Ht in Hadv; discriminate.
  - destruct (processes s !! p) as [proc|]; [|discriminate].
    cbn in Hfire. destruct (exit_status proc); [discriminate|].
    injection Hfire as <-. destruct t; exact Ht.
Qed.

Lemma fire_all_keeps_crashed (chs : list choice) : ∀ (s s' : system) (t : task) (e : exn),
  coroutine_of t s = Crashed e → fire_all chs s = Some s' →
  coroutine_of t s' = Crashed e.
Proof.
  induction chs as [|ch chs IH]; intros s s' t e Ht Hrun; cbn in Hrun.
  - injection Hrun as <-. exact Ht.
  - destruct (fire ch s) as [s1|] eqn:Hfire; [|discriminate].
    cbn in Hrun. eapply IH; [|exact Hrun]. eapply fire_keeps_crashed; eassumption.
Qed.

(** C9. One pass of the loop of [gpi_listener] with the button held
    down: before the bus client exists the pass raises [AttributeError];
    with a client whose [publish] fails it raises [MqttError]; with the
    position left over from a list that has been emptied it raises
    [IndexError].  In the task group the first case leaves the button
    coroutine crashed after nine steps: the button task has ended. *)
Theorem gpi_listener_body_raises :
  let msg := bus_message "butler/say" "hello" in
  let connected := with_mqtt_client (Some (Client (PStr "localhost"))) (init sample_config) in
  outcome (run (world msg false) gpi_listener_body (init sample_config))
  = Raise (AttributeError "publish")
  ∧ outcome (run (world_without_broker msg false) gpi_listener_body connected)
    = Raise MqttError
  ∧ outcome (run (world msg false) gpi_listener_body
               (set_scripts "[]" (set_scripts (json_array ["a"]) connected).1).1)
    = Raise IndexError
  ∧ ∃ s : system,
      fire_all (replicate 9 (Advance Button (world msg false))) (boot sample_config) = Some s
      ∧ button s = Crashed (AttributeError "publish").
Proof.
  intros msg connected.
  split; [vm_compute; reflexivity|]. split; [vm_compute; reflexivity|].
  split; [vm_compute; reflexivity|].
  assert (Hb : button <$> fire_all (replicate 9 (Advance Button (world msg false)))
                            (boot sample_config)
               = Some (Crashed (AttributeError "publish")))
    by (vm_compute; reflexivity).
  destruct (fire_all (replicate 9 (Advance Button (world msg false))) (boot sample_config))
    as [s|]; [|discriminate Hb].
  injection Hb as Hb. exists s. split; [reflexivity|]. exact Hb.
Qed.

End GpiListenerOnJson.

(** ** The task group *)

Lemma tidy_bind {A B : Type} (Q1 : A → option pid → Prop)
    (Q2 : B → option pid → Prop) (f : A → prog B) (p : prog A) :
  ∀ held : option pid,
    tidy Q1 held p →
    (∀ a held', Q1 a held' → tidy Q2 held' (f a)) →
    tidy Q2 held (p ≫= f).
Proof.
  unfold mbind, prog_mbind.
  induction p as [a|e|k IH|self' k IH|X c k IH]; intros held Hp Hf; cbn in *.
  - apply Hf, Hp.
  - exact Hp.
  - intros self. apply IH; [apply Hp | exact Hf].
  - apply IH; [exact Hp | exact Hf].
  - intros x. destruct (Hp x) as (held' & Hnext & Hk).
    exists held'. split; [exact Hnext|]. apply IH; [exact Hk | exact Hf].
Qed.

Lemma tidy_try_except {A : Type} (Q : A → option pid → Prop)
    (catches : exn → bool) (handler : exn → prog A) (body : prog A) :
  ∀ held : option pid,
    tidy Q held body →
    (∀ e, tidy Q None (handler e)) →
    tidy Q held (try_except catches body handler).
Proof.
  induction body as [a|e|k IH|self' k IH|X c k IH]; intros held Hb Hh; cbn in *.
  - exact Hb.
  - destruct (catches e); [rewrite Hb; apply Hh | exact Hb].
  - intros self. apply IH; [apply Hb | exact Hh].
  - apply IH; [exact Hb | exact Hh].
  - intros x. destruct (Hb x) as (held' & Hnext & Hk).
    exists held'. split; [exact Hnext|]. apply IH; [exact Hk | exact Hh].
Qed.

Lemma next_held_Communicate (p : pid) (x : completed) :
  next_held (Communicate p) (Some p) x = Some None.
Proof. cbn. rewrite bool_decide_eq_true_2; reflexivity. Qed.

(** Goals [tidy Q held p] on a body without loops: unfold, and follow
    every branch. *)
Ltac tidy_go :=
  repeat first
    [ progress cbn [tidy next_held lift call call_r mbind prog_mbind prog_bind
                    try_except logging_info logging_error logging_exception
                    self_config self_call]
    | progress unfold released
    | match goal with
      | |- ∀ _, _ => intro
      | |- context [bool_decide (?a = ?a)] =>
          rewrite (bool_decide_eq_true_2 (a = a)) by reflexivity
      | |- ∃ _, _ ∧ _ => eexists; split; [reflexivity|]
      | |- _ ∧ _ => split
      | |- @eq (option _) _ _ => reflexivity
      | |- context [lift ?r] => destruct r
      | |- context [if ?b then _ else _] => destruct b
      | |- context [match ?r with Some _ => _ | None => _ end] => destruct r
      end ].

Section TaskFacts.
Context `{!PyLib}.

Lemma tidy_aplay (filename : string) : tidy released None (aplay filename).
Proof. unfold aplay. tidy_go. Qed.

Lemma tidy_volume (level : string) : tidy released None (volume level).
Proof. unfold volume, volume_try. tidy_go. Qed.

Lemma tidy_play (sound : string) : tidy released None (play sound).
Proof.
  unfold play. apply tidy_try_except; [|tidy_go].
  apply (tidy_bind released); [tidy_go|]. intros filename _ ->.
  apply (tidy_bind released); [tidy_go|]. intros filename' _ ->.
  apply tidy_aplay.
Qed.

Lemma tidy_say (speech : string) : tidy released None (say speech).
Proof.
  unfold say. apply tidy_try_except; [|tidy_go].
  apply (tidy_bind released); [tidy_go|]. intros model _ ->.
  apply (tidy_bind released); [tidy_go|]. intros dir _ ->.
  apply (tidy_bind released); [tidy_go|]. intros filename _ ->.
  apply (tidy_bind released); [tidy_go|]. intros cached _ ->.
  apply (tidy_bind released); [tidy_go|]. intros _ _ ->.
  apply tidy_aplay.
Qed.

Lemma tidy_self_set_scripts (names : string) :
  tidy released None (self_set_scripts names).
Proof.
  unfold self_set_scripts. cbn [tidy]. intros self.
  destruct (set_scripts names self) as [self' records]. cbn [tidy].
  induction records as [|r records IH]; cbn [foldr]; [reflexivity|].
  apply (tidy_bind released); [tidy_go|]. intros _ _ ->. exact IH.
Qed.

Lemma tidy_dispatch (prefix : pyval) (msg : message) (payload : string) :
  tidy released None (dispatch prefix msg payload).
Proof.
  unfold dispatch.
  apply (tidy_bind released); [tidy_go|]. intros m1 _ ->.
  apply (tidy_bind released);
    [destruct m1; [apply tidy_say | reflexivity]|]. intros _ _ ->.
  apply (tidy_bind released); [tidy_go|]. intros m2 _ ->.
  apply (tidy_bind released);
    [destruct m2; [apply tidy_volume | reflexivity]|]. intros _ _ ->.
  apply (tidy_bind released); [tidy_go|]. intros m3 _ ->.
  apply (tidy_bind released);
    [destruct m3; [apply tidy_play | reflexivity]|]. intros _ _ ->.
  apply (tidy_bind released); [tidy_go|]. intros m4 _ ->.
  destruct m4; [apply tidy_self_set_scripts | reflexivity].
Qed.

Lemma tidy_mqtt_listener_body (c : client) (prefix interval : pyval) :
  tidy released None (mqtt_listener_body c prefix interval).
Proof.
  unfold mqtt_listener_body. apply tidy_try_except; [|tidy_go].
  apply (tidy_bind released); [tidy_go|]. intros msg _ ->.
  apply (tidy_bind released); [tidy_go|]. intros payload _ ->.
  apply (tidy_bind released); [tidy_go|]. intros _ _ ->.
  apply tidy_dispatch.
Qed.

Lemma tidy_gpi_listener_body : tidy released None gpi_listener_body.
Proof.
  unfold gpi_listener_body.
  apply (tidy_bind released); [tidy_go|]. intros high _ ->.
  apply (tidy_bind released); [|intros _ _ ->; tidy_go].
  destruct high; [reflexivity|].
  apply (tidy_bind released); [tidy_go|]. intros _ _ ->.
  apply (tidy_bind released); [tidy_go|]. intros dir _ ->.
  apply (tidy_bind released); [tidy_go|]. intros filename _ ->.
  apply (tidy_bind released); [tidy_go|]. intros prefix _ ->.
  apply (tidy_bind released); [tidy_go|]. intros action _ ->.
  apply (tidy_bind released); [tidy_go|]. intros publisher _ ->.
  apply (tidy_bind released); [tidy_go|]. intros _ _ ->.
  apply tidy_aplay.
Qed.

Lemma tidy_clock_worker_body (interval : pyval) :
  tidy released None (clock_worker_body interval).
Proof. unfold clock_worker_body. tidy_go. Qed.

(** The three coroutines start tidy. *)
Lemma tidy_mqtt_listener : coroutine_tidy None mqtt_listener.
Proof.
  unfold mqtt_listener, coroutine_tidy.
  apply (tidy_bind released).
  - unfold mqtt_listener_setup. tidy_go.
  - intros [[c prefix] interval] _ ->. cbn [tidy].
    split; [reflexivity | apply tidy_mqtt_listener_body].
Qed.

Lemma tidy_gpi_listener : coroutine_tidy None gpi_listener.
Proof.
  unfold gpi_listener, coroutine_tidy.
  apply (tidy_bind released).
  - unfold gpi_listener_setup. tidy_go.
  - intros _ _ ->. cbn [tidy]. split; [reflexivity | apply tidy_gpi_listener_body].
Qed.

Lemma tidy_clock_worker : coroutine_tidy None clock_worker.
Proof.
  unfold clock_worker, coroutine_tidy.
  apply (tidy_bind released); [tidy_go|].
  intros interval _ ->. cbn [tidy].
  split; [reflexivity | apply tidy_clock_worker_body].
Qed.

Lemma boot_serial (cfg : pyval) : serial (boot cfg).
Proof.
  intros t. exists None. split.
  - destruct t; [apply tidy_mqtt_listener | apply tidy_gpi_listener | apply tidy_clock_worker].
  - intros p proc Hp. cbn in Hp. rewrite lookup_nil in Hp. discriminate.
Qed.

End TaskFacts.

(** The effect of one answered call on the processes a task waits for. *)
Lemma answer_waits_for {X : Type} (t : task) (c : cmd X) (procs procs' : list process)
    (proposed x : X) (held held' : option pid) :
  answer t c procs proposed = Some (x, procs') →
  next_held c held x = Some held' →
  waits_for t held procs →
  waits_for t held' procs'
  ∧ ∀ t' h, t' ≠ t → waits_for t' h procs → waits_for t' h procs'.
Proof.
  revert proposed x.
  destruct c; intros proposed x Hans Hnext Hw; cbn in Hans, Hnext;
    try (injection Hans as <- <-; injection Hnext as <-; split; [exact Hw | auto]).
  - (* create_subprocess_exec *)
    destruct proposed as [p0|e]; injection Hans as <- <-.
    + destruct held as [q|]; [discriminate|]. injection Hnext as <-. split.
      * intros p proc Hp Hown Hrun.
        destruct (decide (p < length procs)%nat) as [Hlt|Hge].
        -- rewrite lookup_app_l in Hp by exact Hlt.
           discriminate (Hw p proc Hp Hown Hrun).
        -- pose proof (lookup_lt_Some _ _ _ Hp) as Hlen.
           rewrite length_app in Hlen. cbn in Hlen. f_equal. lia.
      * intros t' h Hne Hw' p proc Hp Hown Hrun.
        destruct (decide (p < length procs)%nat) as [Hlt|Hge].
        -- rewrite lookup_app_l in Hp by exact Hlt. exact (Hw' p proc Hp Hown Hrun).
        -- rewrite lookup_app_r in Hp by lia.
           destruct (p - length procs)%nat; cbn in Hp; [|discriminate].
           injection Hp as <-. cbn in Hown. congruence.
    + destruct held as [q|]; [discriminate|]. injection Hnext as <-.
      split; [exact Hw | auto].
  - (* communicate *)
    destruct (procs !! p) as [proc|] eqn:Hp; [|discriminate].
    cbn in Hans. destruct (exit_status proc) as [code|] eqn:Hcode; [|discriminate].
    cbn in Hans. injection Hans as <- <-.
    destruct (bool_decide (held = Some p)) eqn:Hheld; [|discriminate].
    apply bool_decide_eq_true_1 in Hheld. injection Hnext as <-. subst held.
    split; [|auto].
    intros q proc' Hq Hown Hrun.
    pose proof (Hw q proc' Hq Hown Hrun) as Heq. injection Heq as ->.
    congruence.
Qed.

Lemma resume_tidy {A : Type} (Q : A → option pid → Prop) (o : oracle) (t : task)
    (p p' : prog A) (self self' : Butler) (procs procs' : list process)
    (held : option pid) :
  tidy Q held p →
  waits_for t held procs →
  resume o t p self procs = Some (p', self', procs') →
  ∃ held' : option pid,
    tidy Q held' p' ∧ waits_for t held' procs'
    ∧ ∀ t' h, t' ≠ t → waits_for t' h procs → waits_for t' h procs'.
Proof.
  intros Ht Hw Hres.
  destruct p as [a|e|k|self0 k|X c k]; cbn in Hres; try discriminate.
  - injection Hres as <- <- <-. exists held. cbn in Ht. auto.
  - injection Hres as <- <- <-. exists held. cbn in Ht. auto.
  - destruct (answer t c procs (o X c)) as [[x procs0]|] eqn:Hans; [|discriminate].
    cbn in Hres. injection Hres as <- <- <-.
    destruct (Ht x) as (held' & Hnext & Hk).
    exists held'. split; [exact Hk|].
    eapply answer_waits_for; eassumption.
Qed.

Lemma advance_tidy (o : oracle) (t : task) (co co' : coroutine)
    (self self' : Butler) (procs procs' : list process) (held : option pid) :
  coroutine_tidy held co →
  waits_for t held procs →
  advance o t co self procs = Some (co', self', procs') →
  ∃ held' : option pid,
    coroutine_tidy held' co' ∧ waits_for t held' procs'
    ∧ ∀ t' h, t' ≠ t → waits_for t' h procs → waits_for t' h procs'.
Proof.
  intros Ht Hw Hadv. destruct co as [setup|now again|e]; [| |discriminate].
  - cbn [coroutine_tidy] in Ht.
    destruct setup as [body|e|k|self0 k|X c k]; cbn [advance] in Hadv.
    + injection Hadv as <- <- <-. cbn in Ht. destruct Ht as [-> Hbody].
      exists None. cbn. auto.
    + injection Hadv as <- <- <-. cbn in Ht. exists None. cbn. subst held. auto.
    + destruct (resume o t (GetSelf k) self procs) as [[[setup' self1] procs1]|] eqn:Hres;
        [|discriminate]. cbn in Hadv. injection Hadv as <- <- <-.
      destruct (resume_tidy _ o t _ _ _ _ _ _ held Ht Hw Hres) as (held' & ? & ? & ?).
      exists held'. cbn. auto.
    + destruct (resume o t (SetSelf self0 k) self procs) as [[[setup' self1] procs1]|] eqn:Hres;
        [|discriminate]. cbn in Hadv. injection Hadv as <- <- <-.
      destruct (resume_tidy _ o t _ _ _ _ _ _ held Ht Hw Hres) as (held' & ? & ? & ?).
      exists held'. cbn. auto.
    + destruct (resume o t (Do c k) self procs) as [[[setup' self1] procs1]|] eqn:Hres;
        [|discriminate]. cbn in Hadv. injection Hadv as <- <- <-.
      destruct (resume_tidy _ o t _ _ _ _ _ _ held Ht Hw Hres) as (held' & ? & ? & ?).
      exists held'. cbn. auto.
  - destruct Ht as [Hnow Hagain].
    destruct now as [a|e|k|self0 k|X c k]; cbn [advance] in Hadv.
    + injection Hadv as <- <- <-. cbn in Hnow. unfold released in Hnow. subst held.
      exists None. cbn. auto.
    + injection Hadv as <- <- <-. cbn in Hnow. subst held. exists None. cbn. auto.
    + destruct (resume o t (GetSelf k) self procs) as [[[now' self1] procs1]|] eqn:Hres;
        [|discriminate]. cbn in Hadv. injection Hadv as <- <- <-.
      destruct (resume_tidy _ o t _ _ _ _ _ _ held Hnow Hw Hres) as (held' & ? & ? & ?).
      exists held'. cbn. auto.
    + destruct (resume o t (SetSelf self0 k) self procs) as [[[now' self1] procs1]|] eqn:Hres;
        [|discriminate]. cbn in Hadv. injection Hadv as <- <- <-.
      destruct (resume_tidy _ o t _ _ _ _ _ _ held Hnow Hw Hres) as (held' & ? & ? & ?).
      exists held'. cbn. auto.
    + destruct (resume o t (Do c k) self procs) as [[[now' self1] procs1]|] eqn:Hres;
        [|discriminate]. cbn in Hadv. injection Hadv as <- <- <-.
      destruct (resume_tidy _ o t _ _ _ _ _ _ held Hnow Hw Hres) as (held' & ? & ? & ?).
      exists held'. cbn. auto.
Qed.

Lemma coroutine_of_with_task (t t' : task) (co : coroutine) (self : Butler)
    (procs : list process) (s : system) :
  coroutine_of t' (with_task t co self procs s)
  = if decide (t' = t) then co else coroutine_of t' s.
Proof. destruct t, t'; reflexivity. Qed.

Lemma processes_with_task (t : task) (co : coroutine) (self : Butler)
    (procs : list process) (s : system) :
  processes (with_task t co self procs s) = procs.
Proof. destruct t; reflexivity. Qed.

(** Every step of the task group keeps the invariant. *)
Lemma fire_serial (ch : choice) (s s' : system) :
  serial s → fire ch s = Some s' → serial s'.
Proof.
  intros Hs Hfire. destruct ch as [t o|p code]; cbn [fire] in Hfire.
  - destruct (advance o t (coroutine_of t s) (butler s) (processes s))
      as [[[co self] procs]|] eqn:Hadv; [|discriminate].
    cbn in Hfire. injection Hfire as <-.
    destruct (Hs t) as (held & Ht & Hw).
    destruct (advance_tidy o t _ _ _ _ _ _ held Ht Hw Hadv) as (held' & Ht' & Hw' & Hothers).
    intros t'. rewrite coroutine_of_with_task, processes_with_task.
    destruct (decide (t' = t)) as [->|Hne].
    + exists held'. auto.
    + destruct (Hs t') as (h & Hth & Hwh). exists h. auto.
  - destruct (processes s !! p) as [proc|] eqn:Hp; [|discriminate].
    cbn in Hfire. destruct (exit_status proc) eqn:Hst; [discriminate|].
    injection Hfire as <-.
    intros t. destruct (Hs t) as (held & Ht & Hw). exists held.
    split; [destruct t; exact Ht|].
    intros q proc' Hq Hown Hrun. cbn [processes] in Hq.
    destruct (decide (p = q)) as [->|Hne].
    + rewrite list_lookup_insert_eq in Hq by (eapply lookup_lt_Some; exact Hp).
      injection Hq as <-. discriminate Hrun.
    + rewrite list_lookup_insert_ne in Hq by exact Hne.
      exact (Hw q proc' Hq Hown Hrun).
Qed.

Lemma fire_all_serial (chs : list choice) : ∀ s s' : system,
  serial s → fire_all chs s = Some s' → serial s'.
Proof.
  induction chs as [|ch chs IH]; intros s s' Hs Hrun; cbn in Hrun.
  - injection Hrun as <-. exact Hs.
  - destruct (fire ch s) as [s1|] eqn:Hfire; [|discriminate].
    cbn in Hrun. eapply IH; [|exact Hrun]. eapply fire_serial; eassumption.
Qed.

Section Playback.
Context `{!PyLib}.

(** C1, amended. In every state that the task group reaches, two
    processes created by the same task are never both running: a task
    creates its next process (playback or mixer) only after the previous
    one has exited.  This covers two bus commands, which the listener
    handles one after the other, and two button presses. *)
Theorem processes_of_one_task_are_serial (cfg : pyval) (s : system)
    (p q : pid) (proc_p proc_q : process) :
  reachable cfg s →
  processes s !! p = Some proc_p →
  processes s !! q = Some proc_q →
  owner proc_p = owner proc_q →
  exit_status proc_p = None →
  exit_status proc_q = None →
  p = q.
Proof.
  intros [chs Hrun] Hp Hq Hown Hrp Hrq.
  pose proof (fire_all_serial chs _ _ (boot_serial cfg) Hrun) as Hs.
  destruct (Hs (owner proc_p)) as (held & _ & Hw).
  pose proof (Hw p proc_p Hp eq_refl Hrp) as H1.
  pose proof (Hw q proc_q Hq (eq_sym Hown) Hrq) as H2.
  congruence.
Qed.

End Playback.

Section PlaybackOnJson.
#[local] Existing Instance json_library.

(** C1, counterexample: the listener has started [aplay] for a [say]
    command and waits for it; the button is pressed; the button task
    starts its own [aplay] for the beep while the first has not exited.
    Both playback processes are running in the state reached. *)
Lemma say_and_beep_overlap :
  ∃ s : system,
    fire_all say_then_beep (boot sample_config) = Some s
    ∧ processes s
      = [mkProcess Listener ["aplay"; "/opt/speech/hello.wav"; "--device=default"] None;
         mkProcess Button ["aplay"; "/opt/sounds/beep.wav"; "--device=default"] None]
    ∧ playing s 0%nat ∧ playing s 1%nat.
Proof.
  assert (Hp : processes <$> fire_all say_then_beep (boot sample_config)
               = Some [mkProcess Listener
                         ["aplay"; "/opt/speech/hello.wav"; "--device=default"] None;
                       mkProcess Button
                         ["aplay"; "/opt/sounds/beep.wav"; "--device=default"] None])
    by (vm_compute; reflexivity).
  destruct (fire_all say_then_beep (boot sample_config)) as [s|]; [|discriminate Hp].
  injection Hp as Hp. exists s. split; [reflexivity|]. split; [exact Hp|].
  unfold playing. rewrite Hp. split; eexists; (split; [reflexivity|]); split; reflexivity.
Qed.

(** C1, amended, at the state in which the listener waits for the
    [aplay] process of a [say] command. *)
Lemma processes_of_one_task_are_serial_witness :
  ∃ s : system,
    fire_all (replicate 16 (Advance Listener (world (bus_message "butler/say" "hello") false)))
      (boot sample_config) = Some s
    ∧ processes s !! 0%nat
      = Some (mkProcess Listener ["aplay"; "/opt/speech/hello.wav"; "--device=default"] None)
    ∧ 0%nat = 0%nat.
Proof.
  assert (Hp : (fun s => processes s !! 0%nat)
               <$> fire_all (replicate 16 (Advance Listener
                               (world (bus_message "butler/say" "hello") false)))
                     (boot sample_config)
               = Some (Some (mkProcess Listener
                         ["aplay"; "/opt/speech/hello.wav"; "--device=default"] None)))
    by (vm_compute; reflexivity).
  destruct (fire_all (replicate 16 (Advance Listener
                        (world (bus_message "butler/say" "hello") false)))
              (boot sample_config)) as [s|] eqn:Hs; [|discriminate Hp].
  injection Hp as Hp. exists s. split; [reflexivity|]. split; [exact Hp|].
  apply (processes_of_one_task_are_serial sample_config s 0%nat 0%nat _ _
           (ex_intro _ _ Hs) Hp Hp eq_refl eq_refl eq_refl).
Defined.

End PlaybackOnJson.

(** * Further properties *)

(** ** Running composed bodies *)

(** [run] of a sequence: the second part starts from the attributes the
    first has left, and the calls are those of the first followed by
    those of the second. *)
Lemma run_bind {A B : Type} (o : oracle) (f : A → prog B) (p : prog A) :
  ∀ self : Butler,
    run o (p ≫= f) self
    = match run o p self with
      | (Ok a, self1, tr1) =>
          let '(r, self2, tr2) := run o (f a) self1 in (r, self2, (tr1 ++ tr2)%list)
      | (Raise e, self1, tr1) => (Raise e, self1, tr1)
      end.
Proof.
  unfold mbind, prog_mbind.
  induction p as [a|e|k IH|self' k IH|X c k IH]; intros self; cbn [prog_bind run].
  - destruct (run o (f a) self) as [[r self2] tr2]. reflexivity.
  - reflexivity.
  - apply IH.
  - apply IH.
  - rewrite IH. destruct (run o (k (o X c)) self) as [[[a|e] self1] tr1].
    + destruct (run o (f a) self1) as [[r self2] tr2]. reflexivity.
    + reflexivity.
Qed.

(** A [try] whose body does not raise is the body. *)
Lemma run_try_except_returns {A : Type} (o : oracle) (catches : exn → bool)
    (handler : exn → prog A) (body : prog A) :
  ∀ (self : Butler) (a : A),
    outcome (run o body self) = Ok a →
    run o (try_except catches body handler) self = run o body self.
Proof.
  induction body as [a0|e|k IH|self' k IH|X c k IH]; intros self a Hok;
    cbn [try_except run].
  - reflexivity.
  - discriminate Hok.
  - eapply IH, Hok.
  - eapply IH, Hok.
  - rewrite outcome_Do in Hok. rewrite (IH _ _ _ Hok). reflexivity.
Qed.

(** A [try] whose body raises an exception that the clause covers runs
    the handler from the attributes and after the calls of the body. *)
Lemma run_try_except_raises {A : Type} (o : oracle) (catches : exn → bool)
    (handler : exn → prog A) (body : prog A) :
  ∀ (self : Butler) (e : exn),
    outcome (run o body self) = Raise e →
    run o (try_except catches body handler) self
    = if catches e then
        let '(_, self1, tr1) := run o body self in
        let '(r, self2, tr2) := run o (handler e) self1 in
        (r, self2, (tr1 ++ tr2)%list)
      else run o body self.
Proof.
  induction body as [a0|e0|k IH|self' k IH|X c k IH]; intros self e Hraise;
    cbn [try_except run].
  - discriminate Hraise.
  - injection Hraise as ->. cbn [run]. destruct (catches e); [|reflexivity].
    destruct (run o (handler e) self) as [[r self2] tr2]. reflexivity.
  - eapply IH, Hraise.
  - eapply IH, Hraise.
  - rewrite outcome_Do in Hraise. rewrite (IH _ _ _ Hraise).
    destruct (catches e); [|reflexivity].
    destruct (run o (k (o X c)) self) as [[r1 self1] tr1].
    destruct (run o (handler e) self1) as [[r self2] tr2]. reflexivity.
Qed.

Lemma run_readonly {A : Type} (o : oracle) (p : prog A) :
  ∀ self : Butler, readonly p → (run o p self).1.2 = self.
Proof.
  induction p as [a|e|k IH|self' k IH|X c k IH]; intros self Hp; cbn [run readonly] in *.
  - reflexivity.
  - reflexivity.
  - apply IH, Hp.
  - contradiction.
  - specialize (IH (o X c) self (Hp _)).
    destruct (run o (k (o X c)) self) as [[r self1] tr1]. exact IH.
Qed.

Lemma readonly_bind {A B : Type} (f : A → prog B) (p : prog A) :
  readonly p → (∀ a, readonly (f a)) → readonly (p ≫= f).
Proof.
  unfold mbind, prog_mbind.
  induction p as [a|e|k IH|self' k IH|X c k IH]; intros Hp Hf; cbn in *; auto.
Qed.

Lemma readonly_try_except {A : Type} (catches : exn → bool)
    (handler : exn → prog A) (body : prog A) :
  readonly body → (∀ e, readonly (handler e)) → readonly (try_except catches body handler).
Proof.
  induction body as [a|e|k IH|self' k IH|X c k IH]; intros Hb Hh; cbn in *; auto.
  destruct (catches e); [apply Hh | exact I].
Qed.

Lemma run_confined {A : Type} (P : event → Prop) (o : oracle) (p : prog A) :
  ∀ self : Butler, confined P p → ∀ ev, ev ∈ trace (run o p self) → P ev.
Proof.
  unfold trace.
  induction p as [a|e|k IH|self' k IH|X c k IH]; intros self Hp ev Hev;
    cbn [run confined] in *.
  - cbn in Hev. apply elem_of_nil in Hev. contradiction.
  - cbn in Hev. apply elem_of_nil in Hev. contradiction.
  - eapply IH; [apply Hp | exact Hev].
  - eapply IH; [exact Hp | exact Hev].
  - destruct (Hp (o X c)) as [Hc Hk]. specialize (IH (o X c) self Hk ev).
    destruct (run o (k (o X c)) self) as [[r self1] tr1]. cbn [snd] in *.
    apply elem_of_cons in Hev as [->|Hev]; [exact Hc | exact (IH Hev)].
Qed.

Lemma confined_bind {A B : Type} (P : event → Prop) (f : A → prog B) (p : prog A) :
  confined P p → (∀ a, confined P (f a)) → confined P (p ≫= f).
Proof.
  unfold mbind, prog_mbind.
  induction p as [a|e|k IH|self' k IH|X c k IH]; intros Hp Hf; cbn in *; auto.
  intros x. destruct (Hp x) as [Hc Hk]. auto.
Qed.

Lemma confined_try_except {A : Type} (P : event → Prop) (catches : exn → bool)
    (handler : exn → prog A) (body : prog A) :
  confined P body → (∀ e, confined P (handler e)) →
  confined P (try_except catches body handler).
Proof.
  induction body as [a|e|k IH|self' k IH|X c k IH]; intros Hb Hh; cbn in *; auto.
  - destruct (catches e); [apply Hh | exact I].
  - intros x. destruct (Hb x) as [Hc Hk]. auto.
Qed.

(** ** The navigator, continued *)

(** X1. With the cursor on any index but 0, [set_favorite] followed by
    [get_favorite] on the same slot gives exactly what [get_current]
    gives (the same script, or the same exception); the other slots, the
    list and the cursor are as before. *)
Theorem set_favorite_then_get_favorite (slot p : Z) (self : Butler) :
  current_position self = Some p →
  p ≠ 0 →
  get_favorite slot (set_favorite slot self) = get_current self
  ∧ (∀ other : Z, other ≠ slot →
       get_favorite other (set_favorite slot self) = get_favorite other self)
  ∧ script_list (set_favorite slot self) = script_list self
  ∧ current_position (set_favorite slot self) = current_position self.
Proof.
  intros Hp Hnz.
  assert (Hset : set_favorite slot self
                 = with_favorite_dict (<[slot := p]> (favorite_dict self)) self).
  { unfold set_favorite. rewrite Hp. cbn [truthy].
    destruct (Z.eqb_spec p 0); [contradiction | reflexivity]. }
  rewrite Hset. repeat split.
  - unfold get_favorite, get_current. cbn [favorite_dict script_list with_favorite_dict].
    rewrite lookup_insert_eq, Hp. reflexivity.
  - intros other Hne. unfold get_favorite.
    cbn [favorite_dict script_list with_favorite_dict].
    rewrite lookup_insert_ne by congruence. reflexivity.
Qed.

Section FavoritesOnJson.
#[local] Existing Instance json_library.

(** X1, with the cursor on index 1 of [["a","b"]]. *)
Lemma set_favorite_then_get_favorite_witness :
  let self := with_current_position (Some 1)
                (set_scripts (json_array ["a"; "b"]) (init PNone)).1 in
  current_position self = Some 1
  ∧ 1 ≠ 0
  ∧ get_favorite 7 (set_favorite 7 self) = get_current self
  ∧ (∀ other : Z, other ≠ 7 →
       get_favorite other (set_favorite 7 self) = get_favorite other self)
  ∧ script_list (set_favorite 7 self) = script_list self
  ∧ current_position (set_favorite 7 self) = current_position self.
Proof.
  intros self. split; [reflexivity|]. split; [lia|].
  apply (set_favorite_then_get_favorite 7 1 self); [reflexivity | lia].
Defined.

End FavoritesOnJson.

Section FavoritesAcrossLists.
Context `{!PyLib}.

(** X2. A favorite is a stored index, not a stored script: after
    [set_scripts] with a payload that decodes to [v], [get_favorite] on
    an assigned slot is [v[pos]] for the index [pos] stored earlier,
    whatever the list was when the favorite was set. *)
Theorem get_favorite_after_set_scripts (names : string) (v : pyval)
    (slot pos : Z) (self : Butler) :
  favorite_dict self !! slot = Some pos →
  json_loads names = Ok v →
  get_favorite slot (set_scripts names self).1 = py_index v pos.
Proof.
  intros Hslot Hv. unfold set_scripts. rewrite Hv.
  destruct (py_len v) as [n|e]; [destruct (0 <? n)|];
    unfold get_favorite; cbn; rewrite Hslot; reflexivity.
Qed.

End FavoritesAcrossLists.

(** X2, for a favorite on index 1 and the new list [["x","y","z"]]. *)
Lemma get_favorite_after_set_scripts_witness :
  let self := with_favorite_dict {[ 7 := 1 ]} (init PNone) in
  favorite_dict self !! 7 = Some 1
  ∧ @json_loads json_library (json_array ["x"; "y"; "z"])
    = Ok (PList [PStr "x"; PStr "y"; PStr "z"])
  ∧ get_favorite 7 (@set_scripts json_library (json_array ["x"; "y"; "z"]) self).1
    = py_index (PList [PStr "x"; PStr "y"; PStr "z"]) 1.
Proof.
  intros self. split; [reflexivity|]. split; [vm_compute; reflexivity|].
  apply (@get_favorite_after_set_scripts json_library
           (json_array ["x"; "y"; "z"]) _ 7 1 self);
    [reflexivity | vm_compute; reflexivity].
Defined.

(** X3. While the cursor is an index of the script list, [inc_current]
    and [dec_current] return, keep it an index of the list and leave the
    list and the favorites alone; [set_favorite] keeps it too; and on a
    list [get_current] returns one of its scripts. *)
Theorem cursor_stays_in_range (self : Butler) :
  in_range self →
  (∃ up : Butler, inc_current self = Ok up ∧ in_range up
                  ∧ script_list up = script_list self
                  ∧ favorite_dict up = favorite_dict self)
  ∧ (∃ down : Butler, dec_current self = Ok down ∧ in_range down
                      ∧ script_list down = script_list self
                      ∧ favorite_dict down = favorite_dict self)
  ∧ (∀ slot : Z, in_range (set_favorite slot self))
  ∧ (∀ l : list pyval, script_list self = PList l →
       ∃ v : pyval, get_current self = Ok v ∧ v ∈ l).
Proof.
  intros (n & p & Hn & Hp & Hrange). split; [|split; [|split]].
  - unfold inc_current. rewrite Hn, Hp. cbn [mbind result_bind].
    destruct (Z.ltb_spec p (n - 1)); eexists; (split; [reflexivity|]);
      (split; [|split; reflexivity]).
    + exists n, (p + 1). cbn. repeat split; [exact Hn | lia | lia].
    + exists n, 0. cbn. repeat split; [exact Hn | lia | lia].
  - unfold dec_current. rewrite Hp.
    destruct (Z.ltb_spec 0 p); [|rewrite Hn; cbn [mbind result_bind]];
      eexists; (split; [reflexivity|]); (split; [|split; reflexivity]).
    + exists n, (p - 1). cbn. repeat split; [exact Hn | lia | lia].
    + exists n, (n - 1). cbn. repeat split; [exact Hn | lia | lia].
  - intros slot. exists n, p. unfold set_favorite. rewrite Hp.
    destruct (truthy (Some p)); cbn; repeat split; auto; lia.
  - intros l Hl. rewrite Hl in Hn. cbn in Hn. injection Hn as <-.
    destruct (lookup_lt_is_Some_2 l (Z.to_nat p)) as [v Hv]; [lia|].
    exists v. split; [|eapply list_elem_of_lookup_2; exact Hv].
    unfold get_current. rewrite Hp, Hl. cbn [py_index].
    rewrite <- (Z2Nat.id p) by lia. apply seq_getitem_lookup, Hv.
Qed.

(** X3, on the list [["a","b","c"]] right after [set_scripts]. *)
Lemma cursor_stays_in_range_witness :
  let self := (@set_scripts json_library (json_array ["a"; "b"; "c"]) (init PNone)).1 in
  in_range self
  ∧ (∃ up : Butler, inc_current self = Ok up ∧ in_range up
                    ∧ script_list up = script_list self
                    ∧ favorite_dict up = favorite_dict self)
  ∧ (∃ down : Butler, dec_current self = Ok down ∧ in_range down
                      ∧ script_list down = script_list self
                      ∧ favorite_dict down = favorite_dict self)
  ∧ (∀ slot : Z, in_range (set_favorite slot self))
  ∧ (∀ l : list pyval, script_list self = PList l →
       ∃ v : pyval, get_current self = Ok v ∧ v ∈ l).
Proof.
  intros self.
  assert (Hin : in_range self).
  { exists 3, 0. split; [vm_compute; reflexivity|].
    split; [vm_compute; reflexivity | lia]. }
  split; [exact Hin|]. apply (cursor_stays_in_range self Hin).
Defined.

Lemma repeat_call_add {A : Type} (a b : nat) (f : A → result A) : ∀ x : A,
  repeat_call (a + b) f x = repeat_call a f x ≫= repeat_call b f.
Proof.
  induction a as [|a IH]; intros x; cbn [repeat_call Nat.add].
  - reflexivity.
  - destruct (f x) as [x'|e]; cbn [mbind result_bind]; [apply IH | reflexivity].
Qed.

Lemma dec_current_above_first (self : Butler) (p : Z) :
  current_position self = Some p →
  0 < p →
  dec_current self = Ok (with_current_position (Some (p - 1)) self).
Proof.
  intros Hp Hpos. unfold dec_current. rewrite Hp.
  destruct (Z.ltb_spec 0 p); [reflexivity | lia].
Qed.

Lemma dec_current_at_first (self : Butler) (n p : Z) :
  py_len (script_list self) = Ok n →
  current_position self = Some p →
  p ≤ 0 →
  dec_current self = Ok (with_current_position (Some (n - 1)) self).
Proof.
  intros Hn Hp Hle. unfold dec_current. rewrite Hp, Hn.
  destruct (Z.ltb_spec 0 p); [lia | reflexivity].
Qed.

(** [k] decrements that stay above index 0 subtract [k]. *)
Lemma repeat_dec_current (k : nat) : ∀ (self : Butler) (p : Z),
  current_position self = Some p →
  Z.of_nat k ≤ p →
  repeat_call k dec_current self
  = Ok (with_current_position (Some (p - Z.of_nat k)) self).
Proof.
  induction k as [|k IH]; intros self p Hp Hle.
  - simpl. rewrite Z.sub_0_r, with_current_position_same; done.
  - cbn [repeat_call]. rewrite (dec_current_above_first self p) by (done || lia).
    cbn [mbind result_bind].
    rewrite (IH _ (p - 1)) by (reflexivity || lia).
    rewrite with_current_position_twice. do 3 f_equal. lia.
Qed.

(** X4. On a script list of length N with the cursor on a valid index,
    N calls of [inc_current] bring the object back to where it was, and
    so do N calls of [dec_current], from every index. *)
Theorem full_turn_restores_cursor (self : Butler) (n p : Z) :
  py_len (script_list self) = Ok n →
  current_position self = Some p →
  0 ≤ p < n →
  repeat_call (Z.to_nat n) inc_current self = Ok self
  ∧ repeat_call (Z.to_nat n) dec_current self = Ok self.
Proof.
  intros Hn Hp Hrange. split.
  - replace (Z.to_nat n) with (Z.to_nat (n - 1 - p) + (1 + Z.to_nat p))%nat by lia.
    rewrite repeat_call_add.
    rewrite (repeat_inc_current _ self n p) by (done || lia).
    cbn [mbind result_bind]. rewrite repeat_call_add.
    cbn [repeat_call].
    rewrite (inc_current_at_last _ n (p + Z.of_nat (Z.to_nat (n - 1 - p))))
      by (done || cbn; f_equal; lia || lia).
    cbn [mbind result_bind]. rewrite with_current_position_twice.
    rewrite (repeat_inc_current _ _ n 0) by (done || lia).
    rewrite with_current_position_twice.
    rewrite with_current_position_same; [reflexivity | rewrite Hp; f_equal; lia].
  - replace (Z.to_nat n) with (Z.to_nat p + (1 + Z.to_nat (n - 1 - p)))%nat by lia.
    rewrite repeat_call_add.
    rewrite (repeat_dec_current _ self p) by (done || lia).
    cbn [mbind result_bind]. rewrite repeat_call_add.
    cbn [repeat_call].
    rewrite (dec_current_at_first _ n (p - Z.of_nat (Z.to_nat p)))
      by (done || reflexivity || lia).
    cbn [mbind result_bind]. rewrite with_current_position_twice.
    rewrite (repeat_dec_current _ _ (n - 1)) by (reflexivity || lia).
    rewrite with_current_position_twice.
    rewrite with_current_position_same; [reflexivity | rewrite Hp; f_equal; lia].
Qed.

(** X4, on the list [["a","b","c"]] with the cursor on index 1. *)
Lemma full_turn_restores_cursor_witness :
  let self := with_current_position (Some 1)
                (@set_scripts json_library (json_array ["a"; "b"; "c"]) (init PNone)).1 in
  py_len (script_list self) = Ok 3
  ∧ current_position self = Some 1
  ∧ repeat_call (Z.to_nat 3) inc_current self = Ok self
  ∧ repeat_call (Z.to_nat 3) dec_current self = Ok self.
Proof.
  intros self. split; [vm_compute; reflexivity|]. split; [reflexivity|].
  apply (full_turn_restores_cursor self 3 1);
    [vm_compute; reflexivity | reflexivity | lia].
Defined.

Section UnsizedPayload.
Context `{!PyLib}.

(** X5. A payload that is valid JSON but has no length (a number, a
    boolean, [null]): [set_scripts] has already stored the value as the
    script list when [len] raises; it logs the error, leaves the cursor
    and the favorites as they were, and from then on [inc_current]
    raises the exception of [len]. *)
Theorem set_scripts_stores_unsized_value (names : string) (v : pyval) (e : exn)
    (self : Butler) :
  json_loads names = Ok v →
  py_len v = Raise e →
  set_scripts names self
  = (with_script_list v self, [Log ERROR "Unable to parse script list"])
  ∧ inc_current (set_scripts names self).1 = Raise e.
Proof.
  intros Hv He. unfold set_scripts. rewrite Hv, He. split; [reflexivity|].
  unfold inc_current. cbn [fst script_list with_script_list]. rewrite He. reflexivity.
Qed.

End UnsizedPayload.

(** X5, at the payload [5]. *)
Lemma set_scripts_stores_unsized_value_witness :
  @json_loads json_library "5" = Ok (PInt 5)
  ∧ py_len (PInt 5) = Raise TypeError
  ∧ @set_scripts json_library "5" (init PNone)
    = (with_script_list (PInt 5) (init PNone), [Log ERROR "Unable to parse script list"])
  ∧ inc_current (@set_scripts json_library "5" (init PNone)).1 = Raise TypeError.
Proof.
  split; [vm_compute; reflexivity|]. split; [reflexivity|].
  apply (@set_scripts_stores_unsized_value json_library "5" (PInt 5) TypeError (init PNone));
    [vm_compute; reflexivity | reflexivity].
Defined.

(** ** The handlers, continued *)

(** Goals [readonly p] and [confined P p] on a body without loops. *)
Ltac body_go :=
  repeat first
    [ progress cbn [readonly confined lift call call_r mbind prog_mbind prog_bind
                    try_except logging_info logging_error logging_exception
                    self_config self_call Exception]
    | match goal with
      | |- ∀ _, _ => intro
      | |- _ ∧ _ => split
      | |- True => exact I
      | |- @eq bool _ _ => reflexivity
      | |- context [lift ?r] => destruct r
      | |- context [if ?b then _ else _] => destruct b
      | |- context [match ?r with Some _ => _ | None => _ end] => destruct r
      end ].

Lemma run_shape (r : result unit * Butler * list event) (self : Butler) :
  outcome r = Ok tt → r.1.2 = self → r = (Ok tt, self, trace r).
Proof. destruct r as [[res self'] tr]. cbn. intros -> ->. reflexivity. Qed.

Section HandlerRuns.
Context `{!PyLib}.

Lemma readonly_aplay (filename : string) : readonly (aplay filename).
Proof. unfold aplay. body_go. Qed.

Lemma readonly_volume (level : string) : readonly (volume level).
Proof. unfold volume, volume_try. body_go. Qed.

Lemma readonly_play (sound : string) : readonly (play sound).
Proof. unfold play, aplay. body_go. Qed.

Lemma readonly_say (speech : string) : readonly (say speech).
Proof. unfold say, aplay. body_go. Qed.

Lemma run_aplay_shape (o : oracle) (filename : string) (self : Butler) :
  run o (aplay filename) self = (Ok tt, self, trace (run o (aplay filename) self)).
Proof.
  apply run_shape; [apply try_except_logs | apply run_readonly, readonly_aplay].
Qed.


End HandlerRuns.

(** X7. Whatever the environment answers, [volume] never creates an
    [aplay] process: the only process it can create is the mixer. *)
Theorem volume_never_plays (o : oracle) (self : Butler) (level : string) (ev : event) :
  ev ∈ trace (run o (volume level) self) →
  spawns "aplay" ev = false
  ∧ (creates_process ev = true → spawns "amixer" ev = true).
Proof.
  apply (run_confined
           (fun ev => spawns "aplay" ev = false
                      ∧ (creates_process ev = true → spawns "amixer" ev = true))).
  unfold volume, volume_try. body_go; cbn in *; congruence.
Qed.

(** X7, at the level ["50"]: the mixer process is such a call. *)
Lemma volume_never_plays_witness :
  let o := world (bus_message "butler/volume" "50") true in
  let ev := Ev (CreateSubprocess ["amixer"; "-c 0"; "set"; "Master"; "50%"]) (Ok 0%nat) in
  ev ∈ trace (run o (volume "50") (init sample_config))
  ∧ spawns "aplay" ev = false
  ∧ (creates_process ev = true → spawns "amixer" ev = true).
Proof.
  intros o ev.
  assert (Hev : ev ∈ trace (run o (volume "50") (init sample_config))).
  { apply (list_elem_of_lookup_2 _ 1%nat). reflexivity. }
  split; [exact Hev|].
  apply (volume_never_plays o (init sample_config) "50" ev Hev).
Defined.

(** X8. When the mixer process of a [volume] command exits with a
    non-zero status, [volume] logs ["Set volume error: "] followed by the
    text of the process's standard error and does nothing else. *)
Theorem volume_mixer_failure (o : oracle) (self : Butler) (level err : string)
    (process : pid) :
  o _ (CreateSubprocess ["amixer"; "-c 0"; "set"; "Master"; level +:+ "%"])
  = Ok process →
  returncode (o _ (Communicate process)) ≠ 0 →
  stderr_decode (o _ (Communicate process)) = Ok err →
  run o (volume level) self
  = (Ok tt, self,
     [Ev (Logging (Log INFO "Setting volume...")) tt;
      Ev (CreateSubprocess ["amixer"; "-c 0"; "set"; "Master"; level +:+ "%"])
         (Ok process);
      Ev (Communicate process) (o _ (Communicate process));
      Ev (Logging (Log ERROR ("Set volume error: " +:+ err))) tt]).
Proof.
  intros Hspawn Hexit Herr.
  assert (Hunit : ∀ r, o unit (Logging r) = tt)
    by (intros r; destruct (o unit (Logging r)); reflexivity).
  unfold volume, volume_try, logging_info, logging_error, logging_exception,
    call, call_r, self_config.
  cbn [mbind prog_mbind prog_bind try_except run].
  rewrite Hspawn. cbn [lift mbind prog_mbind prog_bind try_except run].
  destruct (Z.eqb_spec (returncode (o completed (Communicate process))) 0) as [Hz|_];
    [contradiction|].
  rewrite Herr. cbn [lift mbind prog_mbind prog_bind try_except run].
  rewrite !Hunit. reflexivity.
Qed.

(** X8, with a mixer that exits with status 1. *)
Lemma volume_mixer_failure_witness :
  let o := world_exiting 1 "amixer: Unable to find simple control"
             (bus_message "butler/volume" "50") true in
  o _ (CreateSubprocess ["amixer"; "-c 0"; "set"; "Master"; "50" +:+ "%"]) = Ok 0%nat
  ∧ returncode (o _ (Communicate 0%nat)) ≠ 0
  ∧ run o (volume "50") (init sample_config)
    = (Ok tt, init sample_config,
       [Ev (Logging (Log INFO "Setting volume...")) tt;
        Ev (CreateSubprocess ["amixer"; "-c 0"; "set"; "Master"; "50" +:+ "%"])
           (Ok 0%nat);
        Ev (Communicate 0%nat) (o _ (Communicate 0%nat));
        Ev (Logging (Log ERROR ("Set volume error: "
                                +:+ "amixer: Unable to find simple control"))) tt]).
Proof.
  intros o. split; [reflexivity|]. split; [discriminate|].
  apply (volume_mixer_failure o (init sample_config) "50"
           "amixer: Unable to find simple control" 0%nat);
    [reflexivity | discriminate | reflexivity].
Defined.

Section PlaybackRuns.
Context `{!PyLib}.

(** X9. With a [device] entry in the configuration and a process that
    starts, [aplay] runs [aplay <filename> --device=<device>], waits for
    it, and logs success for exit status zero, the decoded standard error
    otherwise (or the exception of decoding it). *)
Theorem aplay_reports_exit_status (o : oracle) (self : Butler)
    (filename : string) (device : pyval) (process : pid) :
  py_item (config self) "device" = Ok device →
  o _ (CreateSubprocess ["aplay"; filename; "--device=" +:+ py_format device])
  = Ok process →
  run o (aplay filename) self
  = (Ok tt, self,
     [Ev (Logging (Log INFO "Aplaying speech...")) tt;
      Ev (CreateSubprocess ["aplay"; filename; "--device=" +:+ py_format device])
         (Ok process);
      Ev (Communicate process) (o _ (Communicate process));
      Ev (Logging (aplay_report (o _ (Communicate process)))) tt]).
Proof.
  intros Hdev Hspawn.
  assert (Hunit : ∀ r, o unit (Logging r) = tt)
    by (intros r; destruct (o unit (Logging r)); reflexivity).
  unfold aplay, aplay_report, logging_info, logging_error, logging_exception,
    call, call_r, self_config.
  cbn [mbind prog_mbind prog_bind try_except run]. rewrite Hdev.
  cbn [lift mbind prog_mbind prog_bind try_except run]. rewrite Hspawn.
  cbn [lift mbind prog_mbind prog_bind try_except run].
  destruct (returncode (o completed (Communicate process)) =? 0).
  - cbn [lift mbind prog_mbind prog_bind try_except run]. rewrite !Hunit. reflexivity.
  - destruct (stderr_decode (o completed (Communicate process))) as [err|e];
      cbn [lift mbind prog_mbind prog_bind try_except run Exception];
      rewrite !Hunit; reflexivity.
Qed.

(** X10. Without a usable [device] entry, or when the process cannot be
    created, [aplay] waits for nothing: it logs the exception and
    returns. *)
Theorem aplay_cannot_start (o : oracle) (self : Butler) (filename : string) (e : exn) :
  (device ← py_item (config self) "device";
   o _ (CreateSubprocess ["aplay"; filename; "--device=" +:+ py_format device]))
  = Raise e →
  outcome (run o (aplay filename) self) = Ok tt
  ∧ last (trace (run o (aplay filename) self))
    = Some (Ev (Logging (LogExn ERROR "Aplay exception: " e)) tt)
  ∧ ∀ ev : event, ev ∈ trace (run o (aplay filename) self) →
      match ev with
      | @Ev _ (Communicate _) _ => False
      | _ => True
      end.
Proof.
  intros Hfail.
  assert (Hunit : ∀ r, o unit (Logging r) = tt)
    by (intros r; destruct (o unit (Logging r)); reflexivity).
  split; [apply try_except_logs|].
  unfold aplay, logging_info, logging_error, logging_exception, call, call_r, self_config.
  cbn [mbind prog_mbind prog_bind try_except run trace snd].
  destruct (py_item (config self) "device") as [device|e'];
    cbn [mbind result_bind] in Hfail.
  - cbn [lift mbind prog_mbind prog_bind try_except run]. rewrite Hfail.
    cbn [lift mbind prog_mbind prog_bind try_except run Exception snd].
    rewrite !Hunit. split; [reflexivity|].
    intros ev Hev. repeat (apply elem_of_cons in Hev as [->|Hev]; [exact I|]).
    apply elem_of_nil in Hev. contradiction.
  - injection Hfail as ->.
    cbn [lift mbind prog_mbind prog_bind try_except run Exception snd].
    rewrite !Hunit. split; [reflexivity|].
    intros ev Hev. repeat (apply elem_of_cons in Hev as [->|Hev]; [exact I|]).
    apply elem_of_nil in Hev. contradiction.
Qed.

(** X11. [play] plays the file that [os.path.join] makes of the
    [sounds_path] entry and [<sound>.wav]: its run is the run of [aplay]
    on that path.  A sound name that begins with a slash therefore
    replaces the configured directory. *)
Theorem play_plays_joined_path (o : oracle) (self : Butler) (sound : string)
    (dir : pyval) (path : string) :
  py_item (config self) "sounds_path" = Ok dir →
  os_path_join dir (sound +:+ ".wav") = Ok path →
  run o (play sound) self = run o (aplay path) self
  ∧ (∀ d rest : string, dir = PStr d → sound = String "/" rest →
       path = sound +:+ ".wav").
Proof.
  intros Hdir Hjoin. split.
  - unfold play, self_config.
    cbn [mbind prog_mbind prog_bind try_except run]. rewrite Hdir.
    cbn [lift mbind prog_mbind prog_bind try_except run]. rewrite Hjoin.
    cbn [lift mbind prog_mbind prog_bind try_except run].
    apply (run_try_except_returns o Exception _ (aplay path) self tt).
    apply try_except_logs.
  - intros d rest -> ->. destruct rest; simpl in Hjoin; injection Hjoin as <-; reflexivity.
Qed.

(** X12. When the [sounds_path] entry is missing or is not a string,
    [play] creates no process: it logs the exception and returns. *)
Theorem play_without_sounds_path (o : oracle) (self : Butler) (sound : string) (e : exn) :
  (dir ← py_item (config self) "sounds_path"; os_path_join dir (sound +:+ ".wav"))
  = Raise e →
  run o (play sound) self
  = (Ok tt, self, [Ev (Logging (LogExn ERROR "Play exception: " e)) tt]).
Proof.
  intros Hfail.
  assert (Hunit : ∀ r, o unit (Logging r) = tt)
    by (intros r; destruct (o unit (Logging r)); reflexivity).
  unfold play, self_config, logging_exception, call.
  cbn [mbind prog_mbind prog_bind try_except run].
  destruct (py_item (config self) "sounds_path") as [dir|e'];
    cbn [mbind result_bind] in Hfail.
  - cbn [lift mbind prog_mbind prog_bind try_except run]. rewrite Hfail.
    cbn [lift mbind prog_mbind prog_bind try_except run Exception].
    rewrite Hunit. reflexivity.
  - injection Hfail as ->.
    cbn [lift mbind prog_mbind prog_bind try_except run Exception].
    rewrite Hunit. reflexivity.
Qed.

(** X13. When the speech file exists, [say] synthesizes nothing: after
    the file test its run is the run of [aplay] on the file
    [<speech_path>/<speech>.wav]. *)
Theorem say_plays_cached_speech (o : oracle) (self : Butler) (speech : string)
    (model dir : pyval) (path : string) :
  py_item (config self) "model" = Ok model →
  py_item (config self) "speech_path" = Ok dir →
  os_path_join dir (speech +:+ ".wav") = Ok path →
  o _ (IsFile path) = true →
  run o (say speech) self
  = (Ok tt, self, Ev (IsFile path) true :: trace (run o (aplay path) self))
  ∧ ∀ ev : event, ev ∈ trace (run o (say speech) self) → synthesizes ev = false.
Proof.
  intros Hmodel Hdir Hjoin Hcached.
  assert (Hrun : run o (say speech) self
                 = (Ok tt, self, Ev (IsFile path) true :: trace (run o (aplay path) self))).
  { unfold say, self_config, call.
    cbn [mbind prog_mbind prog_bind try_except run]. rewrite Hmodel.
    cbn [lift mbind prog_mbind prog_bind try_except run]. rewrite Hdir.
    cbn [lift mbind prog_mbind prog_bind try_except run]. rewrite Hjoin.
    cbn [lift mbind prog_mbind prog_bind try_except run]. rewrite Hcached.
    cbn [lift mbind prog_mbind prog_bind try_except run].
    rewrite (run_try_except_returns o Exception _ (aplay path) self tt)
      by apply try_except_logs.
    rewrite (run_aplay_shape o path self) at 1. reflexivity. }
  split; [exact Hrun|].
  rewrite Hrun. unfold trace at 1. cbn [snd].
  intros ev Hev. apply elem_of_cons in Hev as [->|Hev]; [reflexivity|].
  revert ev Hev.
  apply (run_confined (fun ev => synthesizes ev = false)).
  unfold aplay. body_go.
Qed.

(** X14. When the speech file does not exist and the voice cannot be
    loaded, [say] plays nothing: it logs the exception and returns
    without creating a process. *)
Theorem say_without_voice (o : oracle) (self : Butler) (speech : string)
    (model dir : pyval) (path : string) (e : exn) :
  py_item (config self) "model" = Ok model →
  py_item (config self) "speech_path" = Ok dir →
  os_path_join dir (speech +:+ ".wav") = Ok path →
  o _ (IsFile path) = false →
  o _ (PiperLoad model) = Raise e →
  run o (say speech) self
  = (Ok tt, self,
     [Ev (IsFile path) false;
      Ev (Logging (Log INFO "Synthesizing speech...")) tt;
      Ev (PiperLoad model) (Raise e);
      Ev (Logging (LogExn ERROR "Speech exception: " e)) tt]).
Proof.
  intros Hmodel Hdir Hjoin Hcached Hload.
  assert (Hunit : ∀ r, o unit (Logging r) = tt)
    by (intros r; destruct (o unit (Logging r)); reflexivity).
  unfold say, self_config, logging_info, logging_exception, call, call_r.
  cbn [mbind prog_mbind prog_bind try_except run]. rewrite Hmodel.
  cbn [lift mbind prog_mbind prog_bind try_except run]. rewrite Hdir.
  cbn [lift mbind prog_mbind prog_bind try_except run]. rewrite Hjoin.
  cbn [lift mbind prog_mbind prog_bind try_except run]. rewrite Hcached.
  cbn [lift mbind prog_mbind prog_bind try_except run]. rewrite Hload.
  cbn [lift mbind prog_mbind prog_bind try_except run Exception].
  rewrite !Hunit. reflexivity.
Qed.

(** X15. When the speech file does not exist and the three synthesis
    calls succeed, [say] loads the voice, opens the wave file, renders
    the speech into it and then plays the file. *)
Theorem say_synthesizes_then_plays (o : oracle) (self : Butler) (speech : string)
    (model dir : pyval) (path : string) (v : voice) (wf : wave_write) :
  py_item (config self) "model" = Ok model →
  py_item (config self) "speech_path" = Ok dir →
  os_path_join dir (speech +:+ ".wav") = Ok path →
  o _ (IsFile path) = false →
  o _ (PiperLoad model) = Ok v →
  o _ (WaveOpen path) = Ok wf →
  o _ (Synthesize v speech wf) = Ok tt →
  run o (say speech) self
  = (Ok tt, self,
     Ev (IsFile path) false
     :: Ev (Logging (Log INFO "Synthesizing speech...")) tt
     :: Ev (PiperLoad model) (Ok v)
     :: Ev (WaveOpen path) (Ok wf)
     :: Ev (Synthesize v speech wf) (Ok tt)
     :: trace (run o (aplay path) self)).
Proof.
  intros Hmodel Hdir Hjoin Hcached Hload Hopen Hsynth.
  assert (Hunit : ∀ r, o unit (Logging r) = tt)
    by (intros r; destruct (o unit (Logging r)); reflexivity).
  unfold say, self_config, logging_info, logging_exception, call, call_r.
  cbn [mbind prog_mbind prog_bind try_except run]. rewrite Hmodel.
  cbn [lift mbind prog_mbind prog_bind try_except run]. rewrite Hdir.
  cbn [lift mbind prog_mbind prog_bind try_except run]. rewrite Hjoin.
  cbn [lift mbind prog_mbind prog_bind try_except run]. rewrite Hcached.
  cbn [lift mbind prog_mbind prog_bind try_except run]. rewrite Hload.
  cbn [lift mbind prog_mbind prog_bind try_except run]. rewrite Hopen.
  cbn [lift mbind prog_mbind prog_bind try_except run]. rewrite Hsynth.
  cbn [lift mbind prog_mbind prog_bind try_except run].
  rewrite (run_try_except_returns o Exception _ (aplay path) self tt)
    by apply try_except_logs.
  rewrite (run_aplay_shape o path self) at 1. rewrite !Hunit. reflexivity.
Qed.

End PlaybackRuns.

Section PlaybackRunsOnJson.
#[local] Existing Instance json_library.

(** X9, for the beep with the complete configuration. *)
Lemma aplay_reports_exit_status_witness :
  let o := world (bus_message "butler/play" "beep") true in
  let self := init sample_config in
  py_item (config self) "device" = Ok (PStr "default")
  ∧ o _ (CreateSubprocess ["aplay"; "/opt/sounds/beep.wav";
                           "--device=" +:+ py_format (PStr "default")]) = Ok 0%nat
  ∧ run o (aplay "/opt/sounds/beep.wav") self
    = (Ok tt, self,
       [Ev (Logging (Log INFO "Aplaying speech...")) tt;
        Ev (CreateSubprocess ["aplay"; "/opt/sounds/beep.wav";
                              "--device=" +:+ py_format (PStr "default")])
           (Ok 0%nat);
        Ev (Communicate 0%nat) (o _ (Communicate 0%nat));
        Ev (Logging (aplay_report (o _ (Communicate 0%nat)))) tt]).
Proof.
  intros o self. split; [vm_compute; reflexivity|]. split; [reflexivity|].
  apply (aplay_reports_exit_status o self "/opt/sounds/beep.wav" (PStr "default") 0%nat);
    [vm_compute; reflexivity | reflexivity].
Defined.

(** X10, with a configuration that has no [device] entry. *)
Lemma aplay_cannot_start_witness :
  let o := world (bus_message "butler/play" "beep") true in
  let self := init config_without_sounds in
  (device ← py_item (config self) "device";
   o _ (CreateSubprocess ["aplay"; "/opt/sounds/beep.wav";
                          "--device=" +:+ py_format device]))
  = Raise (KeyError (PStr "device"))
  ∧ outcome (run o (aplay "/opt/sounds/beep.wav") self) = Ok tt
  ∧ last (trace (run o (aplay "/opt/sounds/beep.wav") self))
    = Some (Ev (Logging (LogExn ERROR "Aplay exception: " (KeyError (PStr "device")))) tt)
  ∧ ∀ ev : event, ev ∈ trace (run o (aplay "/opt/sounds/beep.wav") self) →
      match ev with
      | @Ev _ (Communicate _) _ => False
      | _ => True
      end.
Proof.
  intros o self. split; [vm_compute; reflexivity|].
  apply (aplay_cannot_start o self "/opt/sounds/beep.wav" (KeyError (PStr "device"))).
  vm_compute; reflexivity.
Defined.

(** X11, for the sound name ["/tmp/x"]: the file played is
    [/tmp/x.wav], outside the configured directory. *)
Lemma play_plays_joined_path_witness :
  let o := world (bus_message "butler/play" "/tmp/x") true in
  let self := init sample_config in
  py_item (config self) "sounds_path" = Ok (PStr "/opt/sounds")
  ∧ os_path_join (PStr "/opt/sounds") ("/tmp/x" +:+ ".wav") = Ok "/tmp/x.wav"
  ∧ run o (play "/tmp/x") self = run o (aplay "/tmp/x.wav") self
  ∧ (∀ d rest : string, PStr "/opt/sounds" = PStr d → "/tmp/x" = String "/" rest →
       "/tmp/x.wav" = "/tmp/x" +:+ ".wav").
Proof.
  intros o self. split; [vm_compute; reflexivity|]. split; [reflexivity|].
  apply (play_plays_joined_path o self "/tmp/x" (PStr "/opt/sounds") "/tmp/x.wav");
    [vm_compute; reflexivity | reflexivity].
Defined.

(** X12, with a configuration that has no [sounds_path] entry. *)
Lemma play_without_sounds_path_witness :
  let o := world (bus_message "butler/play" "horn") true in
  let self := init config_without_sounds in
  (dir ← py_item (config self) "sounds_path"; os_path_join dir ("horn" +:+ ".wav"))
  = Raise (KeyError (PStr "sounds_path"))
  ∧ run o (play "horn") self
    = (Ok tt, self,
       [Ev (Logging (LogExn ERROR "Play exception: " (KeyError (PStr "sounds_path")))) tt]).
Proof.
  intros o self. split; [vm_compute; reflexivity|].
  apply (play_without_sounds_path o self "horn" (KeyError (PStr "sounds_path"))).
  vm_compute; reflexivity.
Defined.

(** X13, for the speech ["hello"] with its file in place. *)
Lemma say_plays_cached_speech_witness :
  let o := world (bus_message "butler/say" "hello") true in
  let self := init sample_config in
  py_item (config self) "model" = Ok (PStr "/opt/voice.onnx")
  ∧ py_item (config self) "speech_path" = Ok (PStr "/opt/speech")
  ∧ os_path_join (PStr "/opt/speech") ("hello" +:+ ".wav") = Ok "/opt/speech/hello.wav"
  ∧ o _ (IsFile "/opt/speech/hello.wav") = true
  ∧ run o (say "hello") self
    = (Ok tt, self,
       Ev (IsFile "/opt/speech/hello.wav") true
       :: trace (run o (aplay "/opt/speech/hello.wav") self))
  ∧ ∀ ev : event, ev ∈ trace (run o (say "hello") self) → synthesizes ev = false.
Proof.
  intros o self. split; [vm_compute; reflexivity|]. split; [vm_compute; reflexivity|].
  split; [reflexivity|]. split; [reflexivity|].
  apply (say_plays_cached_speech o self "hello" (PStr "/opt/voice.onnx")
           (PStr "/opt/speech") "/opt/speech/hello.wav");
    [vm_compute; reflexivity | vm_compute; reflexivity | reflexivity | reflexivity].
Defined.

(** X14, for the speech ["hello"] without its file and without a voice. *)
Lemma say_without_voice_witness :
  let o := world_without_voice (bus_message "butler/say" "hello") true in
  let self := init sample_config in
  py_item (config self) "model" = Ok (PStr "/opt/voice.onnx")
  ∧ py_item (config self) "speech_path" = Ok (PStr "/opt/speech")
  ∧ o _ (IsFile "/opt/speech/hello.wav") = false
  ∧ o _ (PiperLoad (PStr "/opt/voice.onnx")) = Raise OSError
  ∧ run o (say "hello") self
    = (Ok tt, self,
       [Ev (IsFile "/opt/speech/hello.wav") false;
        Ev (Logging (Log INFO "Synthesizing speech...")) tt;
        Ev (PiperLoad (PStr "/opt/voice.onnx")) (Raise OSError);
        Ev (Logging (LogExn ERROR "Speech exception: " OSError)) tt]).
Proof.
  intros o self. split; [vm_compute; reflexivity|]. split; [vm_compute; reflexivity|].
  split; [reflexivity|]. split; [reflexivity|].
  apply (say_without_voice o self "hello" (PStr "/opt/voice.onnx")
           (PStr "/opt/speech") "/opt/speech/hello.wav" OSError);
    [vm_compute; reflexivity | vm_compute; reflexivity | reflexivity
    | reflexivity | reflexivity].
Defined.

(** X15, for the speech ["hello"] without its file. *)
Lemma say_synthesizes_then_plays_witness :
  let o := world_without_speech_file (bus_message "butler/say" "hello") true in
  let self := init sample_config in
  py_item (config self) "model" = Ok (PStr "/opt/voice.onnx")
  ∧ py_item (config self) "speech_path" = Ok (PStr "/opt/speech")
  ∧ o _ (IsFile "/opt/speech/hello.wav") = false
  ∧ run o (say "hello") self
    = (Ok tt, self,
       Ev (IsFile "/opt/speech/hello.wav") false
       :: Ev (Logging (Log INFO "Synthesizing speech...")) tt
       :: Ev (PiperLoad (PStr "/opt/voice.onnx")) (Ok (Voice (PStr "/opt/voice.onnx")))
       :: Ev (WaveOpen "/opt/speech/hello.wav") (Ok (WaveWrite "/opt/speech/hello.wav"))
       :: Ev (Synthesize (Voice (PStr "/opt/voice.onnx")) "hello"
                (WaveWrite "/opt/speech/hello.wav")) (Ok tt)
       :: trace (run o (aplay "/opt/speech/hello.wav") self)).
Proof.
  intros o self. split; [vm_compute; reflexivity|]. split; [vm_compute; reflexivity|].
  split; [reflexivity|].
  apply (say_synthesizes_then_plays o self "hello" (PStr "/opt/voice.onnx")
           (PStr "/opt/speech") "/opt/speech/hello.wav"
           (Voice (PStr "/opt/voice.onnx")) (WaveWrite "/opt/speech/hello.wav"));
    [vm_compute; reflexivity | vm_compute; reflexivity | reflexivity
    | reflexivity | reflexivity | reflexivity | reflexivity].
Defined.

End PlaybackRunsOnJson.

(** ** The bus listener and the button task *)

Lemma run_prog_bind {A B : Type} (o : oracle) (f : A → prog B) (p : prog A)
    (self : Butler) :
  run o (prog_bind f p) self
  = match run o p self with
    | (Ok a, self1, tr1) =>
        let '(r, self2, tr2) := run o (f a) self1 in (r, self2, (tr1 ++ tr2)%list)
    | (Raise e, self1, tr1) => (Raise e, self1, tr1)
    end.
Proof. exact (run_bind o f p self). Qed.

Section ListenerRuns.
Context `{!PyLib}.

Lemma run_self_set_scripts (o : oracle) (names : string) (self : Butler) :
  run o (self_set_scripts names) self
  = (Ok tt, (set_scripts names self).1,
     (fun r => Ev (Logging r) tt) <$> (set_scripts names self).2).
Proof.
  unfold self_set_scripts. cbn [run].
  destruct (set_scripts names self) as [self' records]. cbn [run fst snd].
  induction records as [|r records IH]; cbn [foldr fmap list_fmap]; [reflexivity|].
  rewrite run_bind. unfold call at 1. cbn [run]. rewrite IH.
  destruct (o unit (Logging r)). reflexivity.
Qed.

(** X16. A message whose topic matches none of [<prefix>/say],
    [<prefix>/volume], [<prefix>/play], [<prefix>/scripts] is ignored:
    no call is made and the object is unchanged. *)
Theorem dispatch_ignores_other_topics (o : oracle) (self : Butler)
    (prefix : pyval) (msg : message) (payload : string) :
  (∀ suffix : string, suffix ∈ ["/say"; "/volume"; "/play"; "/scripts"] →
     topic_matches msg (py_format prefix +:+ suffix) = Ok false) →
  run o (dispatch prefix msg payload) self = (Ok tt, self, []).
Proof.
  intros Hno. unfold dispatch.
  rewrite (Hno "/say"), (Hno "/volume"), (Hno "/play"), (Hno "/scripts")
    by set_solver.
  reflexivity.
Qed.

(** X17. A message whose topic matches [<prefix>/scripts] only is handed
    to [set_scripts]: afterwards the object is what [set_scripts] makes
    of the payload, the only calls are its log records, and the listener
    goes on. *)
Theorem dispatch_scripts (o : oracle) (self : Butler)
    (prefix : pyval) (msg : message) (payload : string) :
  (∀ suffix : string, suffix ∈ ["/say"; "/volume"; "/play"] →
     topic_matches msg (py_format prefix +:+ suffix) = Ok false) →
  topic_matches msg (py_format prefix +:+ "/scripts") = Ok true →
  run o (dispatch prefix msg payload) self
  = (Ok tt, (set_scripts payload self).1,
     (fun r => Ev (Logging r) tt) <$> (set_scripts payload self).2).
Proof.
  intros Hno Hyes. unfold dispatch.
  rewrite (Hno "/say"), (Hno "/volume"), (Hno "/play") by set_solver.
  rewrite Hyes.
  cbn [lift mbind prog_mbind prog_bind]. apply run_self_set_scripts.
Qed.



(** X18. When the wait for the next message fails with [MqttError], the
    listener logs ["Mqtt listener reconnecting..."], sleeps for the
    configured interval and goes on with the loop (unless the sleep
    itself raises); the object is unchanged. *)
Theorem mqtt_listener_body_reconnects (o : oracle) (self : Butler)
    (c : client) (prefix interval : pyval) :
  o _ (NextMessage c) = Raise MqttError →
  run o (mqtt_listener_body c prefix interval) self
  = (o _ (Sleep interval), self,
     [Ev (NextMessage c) (Raise MqttError);
      Ev (Logging (Log INFO "Mqtt listener reconnecting...")) tt;
      Ev (Sleep interval) (o _ (Sleep interval))]).
Proof.
  intros Hnext.
  assert (Hunit : ∀ r, o unit (Logging r) = tt)
    by (intros r; destruct (o unit (Logging r)); reflexivity).
  unfold mqtt_listener_body, logging_info, call, call_r.
  cbn [mbind prog_mbind prog_bind try_except run]. rewrite Hnext.
  cbn [lift mbind prog_mbind prog_bind try_except run aiomqtt_MqttError].
  rewrite Hunit. destruct (o (result ()) (Sleep interval)) as [[]|e]; reflexivity.
Qed.


(** X20. A message whose payload cannot be decoded ends the listener:
    the exception of [decode] is not an [MqttError], so the [except]
    clause lets it through, before any handler is called. *)
Theorem mqtt_listener_body_undecodable_payload (o : oracle) (self : Butler)
    (c : client) (prefix interval : pyval) (msg : message) (e : exn) :
  o _ (NextMessage c) = Ok msg →
  payload_decode msg = Raise e →
  aiomqtt_MqttError e = false →
  run o (mqtt_listener_body c prefix interval) self
  = (Raise e, self, [Ev (NextMessage c) (Ok msg)]).
Proof.
  intros Hnext Hpayload He.
  unfold mqtt_listener_body, call_r.
  cbn [mbind prog_mbind prog_bind try_except run]. rewrite Hnext.
  cbn [lift mbind prog_mbind prog_bind try_except run]. rewrite Hpayload.
  cbn [lift mbind prog_mbind prog_bind try_except run]. rewrite He. reflexivity.
Qed.

End ListenerRuns.

Section ListenerRunsOnJson.
#[local] Existing Instance json_library.

(** X16, for a message on [butler/other]. *)
Lemma dispatch_ignores_other_topics_witness :
  let msg := bus_message "butler/other" "x" in
  let o := world msg true in
  (∀ suffix : string, suffix ∈ ["/say"; "/volume"; "/play"; "/scripts"] →
     topic_matches msg (py_format (PStr "butler") +:+ suffix) = Ok false)
  ∧ run o (dispatch (PStr "butler") msg "x") (init sample_config)
    = (Ok tt, init sample_config, []).
Proof.
  intros msg o.
  assert (Hno : ∀ suffix : string, suffix ∈ ["/say"; "/volume"; "/play"; "/scripts"] →
            topic_matches msg (py_format (PStr "butler") +:+ suffix) = Ok false).
  { intros suffix Hs. repeat (apply elem_of_cons in Hs as [->|Hs]; [reflexivity|]).
    apply elem_of_nil in Hs. contradiction. }
  split; [exact Hno|].
  apply (dispatch_ignores_other_topics o (init sample_config) (PStr "butler") msg "x" Hno).
Defined.

(** X17, for the payload [["a"]] on [butler/scripts]. *)
Lemma dispatch_scripts_witness :
  let msg := bus_message "butler/scripts" (json_array ["a"]) in
  let o := world msg true in
  (∀ suffix : string, suffix ∈ ["/say"; "/volume"; "/play"] →
     topic_matches msg (py_format (PStr "butler") +:+ suffix) = Ok false)
  ∧ topic_matches msg (py_format (PStr "butler") +:+ "/scripts") = Ok true
  ∧ run o (dispatch (PStr "butler") msg (json_array ["a"])) (init sample_config)
    = (Ok tt, (set_scripts (json_array ["a"]) (init sample_config)).1,
       (fun r => Ev (Logging r) tt)
         <$> (set_scripts (json_array ["a"]) (init sample_config)).2).
Proof.
  intros msg o.
  assert (Hno : ∀ suffix : string, suffix ∈ ["/say"; "/volume"; "/play"] →
            topic_matches msg (py_format (PStr "butler") +:+ suffix) = Ok false).
  { intros suffix Hs. repeat (apply elem_of_cons in Hs as [->|Hs]; [reflexivity|]).
    apply elem_of_nil in Hs. contradiction. }
  split; [exact Hno|]. split; [reflexivity|].
  apply (dispatch_scripts o (init sample_config) (PStr "butler") msg
           (json_array ["a"]) Hno eq_refl).
Defined.

(** X18, with a broker that has gone away. *)
Lemma mqtt_listener_body_reconnects_witness :
  let o := world_disconnected (bus_message "butler/say" "hello") true in
  let c := Client (PStr "localhost") in
  o _ (NextMessage c) = Raise MqttError
  ∧ run o (mqtt_listener_body c (PStr "butler") (PInt 60)) (init sample_config)
    = (o _ (Sleep (PInt 60)), init sample_config,
       [Ev (NextMessage c) (Raise MqttError);
        Ev (Logging (Log INFO "Mqtt listener reconnecting...")) tt;
        Ev (Sleep (PInt 60)) (o _ (Sleep (PInt 60)))]).
Proof.
  intros o c. split; [reflexivity|].
  apply (mqtt_listener_body_reconnects o (init sample_config) c (PStr "butler") (PInt 60)).
  reflexivity.
Defined.


(** X20, for a payload that is not UTF-8. *)
Lemma mqtt_listener_body_undecodable_payload_witness :
  let msg := undecodable_message "butler/say" in
  let o := world msg true in
  let c := Client (PStr "localhost") in
  o _ (NextMessage c) = Ok msg
  ∧ payload_decode msg = Raise UnicodeDecodeError
  ∧ aiomqtt_MqttError UnicodeDecodeError = false
  ∧ run o (mqtt_listener_body c (PStr "butler") (PInt 60)) (init sample_config)
    = (Raise UnicodeDecodeError, init sample_config, [Ev (NextMessage c) (Ok msg)]).
Proof.
  intros msg o c. split; [reflexivity|]. split; [reflexivity|]. split; [reflexivity|].
  apply (mqtt_listener_body_undecodable_payload o (init sample_config) c
           (PStr "butler") (PInt 60) msg UnicodeDecodeError); reflexivity.
Defined.

End ListenerRunsOnJson.

Section SetupRuns.
Context `{!PyLib}.

(** X21. With its three configuration entries present, a connection that
    succeeds and a subscription that succeeds, the start of
    [mqtt_listener] stores the client in [self.mqtt_client], subscribes
    to [<prefix>/#] and changes nothing else of the object. *)
Theorem mqtt_listener_setup_connects (o : oracle) (self : Butler)
    (host prefix interval : pyval) (c : client) :
  py_item (config self) "mqtt_host" = Ok host →
  py_item (config self) "mqtt_prefix" = Ok prefix →
  py_item (config self) "interval" = Ok interval →
  o _ (Connect host) = Ok c →
  o _ (Subscribe c (py_format prefix +:+ "/#")) = Ok tt →
  run o mqtt_listener_setup self
  = (Ok (c, prefix, interval), with_mqtt_client (Some c) self,
     [Ev (Connect host) (Ok c);
      Ev (Subscribe c (py_format prefix +:+ "/#")) (Ok tt)]).
Proof.
  intros Hhost Hprefix Hinterval Hconnect Hsubscribe.
  unfold mqtt_listener_setup, self_config, call_r.
  cbn [mbind prog_mbind prog_bind run]. rewrite Hhost.
  cbn [lift mbind prog_mbind prog_bind run]. rewrite Hprefix.
  cbn [lift mbind prog_mbind prog_bind run]. rewrite Hinterval.
  cbn [lift mbind prog_mbind prog_bind run]. rewrite Hconnect.
  cbn [lift mbind prog_mbind prog_bind run]. rewrite Hsubscribe.
  reflexivity.
Qed.

(** X22. When one of the three configuration entries cannot be read
    (the configuration is [None] after a failed [read_config], or is not
    a mapping, or lacks the key), the start of [mqtt_listener] raises
    before it attempts any connection; in the task group the listener
    coroutine is left by that exception within its first four steps, and
    no process exists. *)
Theorem mqtt_listener_needs_configuration (o : oracle) (cfg : pyval) (e : exn) :
  (host ← py_item cfg "mqtt_host";
   prefix ← py_item cfg "mqtt_prefix";
   py_item cfg "interval") = Raise e →
  run o mqtt_listener_setup (init cfg) = (Raise e, init cfg, [])
  ∧ ∃ (n : nat) (s : system),
      (n ≤ 4)%nat
      ∧ fire_all (replicate n (Advance Listener o)) (boot cfg) = Some s
      ∧ listener s = Crashed e
      ∧ processes s = [].
Proof.
  intros Hfail.
  assert (Hrun : run o mqtt_listener_setup (init cfg) = (Raise e, init cfg, [])).
  { unfold mqtt_listener_setup, self_config.
    cbn [mbind prog_mbind prog_bind run init config].
    destruct (py_item cfg "mqtt_host") as [host|e1]; cbn [mbind result_bind] in Hfail;
      [|injection Hfail as ->; reflexivity].
    cbn [lift mbind prog_mbind prog_bind run init config].
    destruct (py_item cfg "mqtt_prefix") as [prefix|e2]; cbn [mbind result_bind] in Hfail;
      [|injection Hfail as ->; reflexivity].
    cbn [lift mbind prog_mbind prog_bind run init config].
    rewrite Hfail. reflexivity. }
  split; [exact Hrun|].
  set (crashed := mkSystem (init cfg) (Crashed e) gpi_listener clock_worker []).
  assert (Hreach : ∃ n : nat, (n ≤ 4)%nat
            ∧ fire_all (replicate n (Advance Listener o)) (boot cfg) = Some crashed).
  { unfold crashed, boot, mqtt_listener, mqtt_listener_setup, self_config.
    destruct (py_item cfg "mqtt_host") as [host|e1] eqn:Hhost;
      cbn [mbind result_bind] in Hfail.
    - destruct (py_item cfg "mqtt_prefix") as [prefix|e2] eqn:Hprefix;
        cbn [mbind result_bind] in Hfail.
      + exists 4%nat. split; [lia|]. cbn. rewrite Hhost. cbn. rewrite Hprefix. cbn.
        rewrite Hfail. reflexivity.
      + injection Hfail as ->. exists 3%nat. split; [lia|].
        cbn. rewrite Hhost. cbn. rewrite Hprefix. reflexivity.
    - injection Hfail as ->. exists 2%nat. split; [lia|].
      cbn. rewrite Hhost. reflexivity. }
  destruct Hreach as (n & Hn & Hreach).
  exists n, crashed. split; [exact Hn|]. split; [exact Hreach|].
  split; reflexivity.
Qed.

End SetupRuns.

Section ButtonRuns.
Context `{!PyLib}.

(** X23. A button press with the bus client in place: the pass logs
    ["Button pressed"], publishes the fixed payload ["button pressed"] on
    [<prefix>/action] (the current script is read but is not part of the
    message), plays [beep.wav] from [sounds_path] through [aplay], and
    sleeps. *)
Theorem gpi_listener_body_press (o : oracle) (self : Butler)
    (dir prefix action : pyval) (path : string) (c : client) :
  o _ (GpioInput 16) = false →
  py_item (config self) "sounds_path" = Ok dir →
  os_path_join dir "beep.wav" = Ok path →
  py_item (config self) "mqtt_prefix" = Ok prefix →
  get_current self = Ok action →
  mqtt_client self = Some c →
  o _ (Publish c (py_format prefix +:+ "/action") "button pressed") = Ok tt →
  run o gpi_listener_body self
  = (o _ (Sleep (PFloat "0.2")), self,
     (Ev (GpioInput 16) false
      :: Ev (Logging (Log INFO "Button pressed")) tt
      :: Ev (Publish c (py_format prefix +:+ "/action") "button pressed") (Ok tt)
      :: trace (run o (aplay path) self)
      ++ [Ev (Sleep (PFloat "0.2")) (o _ (Sleep (PFloat "0.2")))])%list).
Proof.
  intros Hline Hdir Hjoin Hprefix Haction Hclient Hpublish.
  assert (Hunit : ∀ r, o unit (Logging r) = tt)
    by (intros r; destruct (o unit (Logging r)); reflexivity).
  unfold gpi_listener_body, self_config, self_call, logging_info, call, call_r.
  cbn [mbind prog_mbind prog_bind run]. rewrite Hline.
  cbn [lift mbind prog_mbind prog_bind run]. rewrite Hdir.
  cbn [lift mbind prog_mbind prog_bind run]. rewrite Hjoin.
  cbn [lift mbind prog_mbind prog_bind run]. rewrite Hprefix.
  cbn [lift mbind prog_mbind prog_bind run]. rewrite Haction.
  cbn [lift mbind prog_mbind prog_bind run]. rewrite Hclient.
  cbn [lift mbind prog_mbind prog_bind run]. rewrite Hpublish.
  cbn [lift mbind prog_mbind prog_bind run].
  rewrite run_prog_bind, (run_aplay_shape o path self). cbn [run].
  rewrite !Hunit.
  destruct (o (result ()) (Sleep (PFloat "0.2"))) as [[]|e]; reflexivity.
Qed.

End ButtonRuns.

Section TaskRunsOnJson.
#[local] Existing Instance json_library.

(** X21, with the complete configuration. *)
Lemma mqtt_listener_setup_connects_witness :
  let o := world (bus_message "butler/say" "hello") true in
  let self := init sample_config in
  let c := Client (PStr "localhost") in
  py_item (config self) "mqtt_host" = Ok (PStr "localhost")
  ∧ py_item (config self) "mqtt_prefix" = Ok (PStr "butler")
  ∧ py_item (config self) "interval" = Ok (PInt 60)
  ∧ o _ (Connect (PStr "localhost")) = Ok c
  ∧ run o mqtt_listener_setup self
    = (Ok (c, PStr "butler", PInt 60), with_mqtt_client (Some c) self,
       [Ev (Connect (PStr "localhost")) (Ok c);
        Ev (Subscribe c (py_format (PStr "butler") +:+ "/#")) (Ok tt)]).
Proof.
  intros o self c.
  split; [vm_compute; reflexivity|]. split; [vm_compute; reflexivity|].
  split; [vm_compute; reflexivity|]. split; [reflexivity|].
  apply (mqtt_listener_setup_connects o self (PStr "localhost") (PStr "butler")
           (PInt 60) c);
    [vm_compute; reflexivity | vm_compute; reflexivity | vm_compute; reflexivity
    | reflexivity | reflexivity].
Defined.

(** X22, with the configuration [None]. *)
Lemma mqtt_listener_needs_configuration_witness :
  let o := world (bus_message "butler/say" "hello") true in
  (host ← py_item PNone "mqtt_host";
   prefix ← py_item PNone "mqtt_prefix";
   py_item PNone "interval") = Raise TypeError
  ∧ run o mqtt_listener_setup (init PNone) = (Raise TypeError, init PNone, [])
  ∧ ∃ (n : nat) (s : system),
      (n ≤ 4)%nat
      ∧ fire_all (replicate n (Advance Listener o)) (boot PNone) = Some s
      ∧ listener s = Crashed TypeError
      ∧ processes s = [].
Proof.
  intros o. split; [reflexivity|].
  apply (mqtt_listener_needs_configuration o PNone TypeError). reflexivity.
Defined.

(** X23, with the line low and the listener connected. *)
Lemma gpi_listener_body_press_witness :
  let o := world (bus_message "butler/say" "hello") false in
  let c := Client (PStr "localhost") in
  let self := with_mqtt_client (Some c) (init sample_config) in
  o _ (GpioInput 16) = false
  ∧ py_item (config self) "sounds_path" = Ok (PStr "/opt/sounds")
  ∧ os_path_join (PStr "/opt/sounds") "beep.wav" = Ok "/opt/sounds/beep.wav"
  ∧ get_current self = Ok PNone
  ∧ mqtt_client self = Some c
  ∧ run o gpi_listener_body self
    = (o _ (Sleep (PFloat "0.2")), self,
       (Ev (GpioInput 16) false
        :: Ev (Logging (Log INFO "Button pressed")) tt
        :: Ev (Publish c (py_format (PStr "butler") +:+ "/action") "button pressed") (Ok tt)
        :: trace (run o (aplay "/opt/sounds/beep.wav") self)
        ++ [Ev (Sleep (PFloat "0.2")) (o _ (Sleep (PFloat "0.2")))])%list).
Proof.
  intros o c self.
  split; [reflexivity|]. split; [vm_compute; reflexivity|]. split; [reflexivity|].
  split; [reflexivity|]. split; [reflexivity|].
  apply (gpi_listener_body_press o self (PStr "/opt/sounds") (PStr "butler") PNone
           "/opt/sounds/beep.wav" c);
    [reflexivity | vm_compute; reflexivity | reflexivity | vm_compute; reflexivity
    | reflexivity | reflexivity | reflexivity].
Defined.

End TaskRunsOnJson.

(** ** What the loops never do *)

Section LoopFacts.
Context `{!PyLib}.

Ltac known_go := body_go; unfold runs_known_program; cbn; auto; try discriminate.

Lemma confined_aplay (filename : string) : confined runs_known_program (aplay filename).
Proof. unfold aplay. known_go. Qed.

Lemma confined_volume (level : string) : confined runs_known_program (volume level).
Proof. unfold volume, volume_try. known_go. Qed.

Lemma confined_play (sound : string) : confined runs_known_program (play sound).
Proof. unfold play, aplay. known_go. Qed.

Lemma confined_say (speech : string) : confined runs_known_program (say speech).
Proof. unfold say, aplay. known_go. Qed.

Lemma confined_self_set_scripts (names : string) :
  confined runs_known_program (self_set_scripts names).
Proof.
  unfold self_set_scripts. cbn [confined]. intros self.
  destruct (set_scripts names self) as [self' records]. cbn [confined].
  induction records as [|r records IH]; cbn [foldr]; [exact I|].
  apply confined_bind; [known_go | intros _; exact IH].
Qed.

Lemma confined_dispatch (prefix : pyval) (msg : message) (payload : string) :
  confined runs_known_program (dispatch prefix msg payload).
Proof.
  unfold dispatch.
  apply confined_bind; [known_go|]. intros m1.
  apply confined_bind; [destruct m1; [apply confined_say | exact I]|]. intros _.
  apply confined_bind; [known_go|]. intros m2.
  apply confined_bind; [destruct m2; [apply confined_volume | exact I]|]. intros _.
  apply confined_bind; [known_go|]. intros m3.
  apply confined_bind; [destruct m3; [apply confined_play | exact I]|]. intros _.
  apply confined_bind; [known_go|]. intros m4.
  destruct m4; [apply confined_self_set_scripts | exact I].
Qed.

(** X24. Whatever message arrives and whatever the environment answers,
    a pass of the listener loop and a pass of the button loop execute no
    program other than [aplay] and [amixer]: a payload reaches a command
    line as an argument only. *)
Theorem loops_run_only_aplay_and_amixer (o : oracle) (self : Butler)
    (c : client) (prefix interval : pyval) (ev : event) :
  ev ∈ trace (run o (mqtt_listener_body c prefix interval) self)
  ∨ ev ∈ trace (run o gpi_listener_body self) →
  creates_process ev = true →
  spawns "aplay" ev = true ∨ spawns "amixer" ev = true.
Proof.
  intros [Hev|Hev]; revert ev Hev; apply (run_confined runs_known_program).
  - unfold mqtt_listener_body. apply confined_try_except; [|known_go].
    apply confined_bind; [known_go|]. intros msg.
    apply confined_bind; [known_go|]. intros payload.
    apply confined_bind; [known_go|]. intros _.
    apply confined_dispatch.
  - unfold gpi_listener_body.
    apply confined_bind; [known_go|]. intros high.
    apply confined_bind; [|intros _; known_go].
    destruct high; [exact I|].
    apply confined_bind; [known_go|]. intros _.
    apply confined_bind; [known_go|]. intros dir.
    apply confined_bind; [known_go|]. intros filename.
    apply confined_bind; [known_go|]. intros pre.
    apply confined_bind; [known_go|]. intros action.
    apply confined_bind; [known_go|]. intros publisher.
    apply confined_bind; [known_go|]. intros _.
    apply confined_aplay.
Qed.

Lemma readonly_dispatch_without_scripts (prefix : pyval) (msg : message)
    (payload : string) :
  topic_matches msg (py_format prefix +:+ "/scripts") ≠ Ok true →
  readonly (dispatch prefix msg payload).
Proof.
  intros Hno. unfold dispatch.
  apply readonly_bind; [body_go|]. intros m1.
  apply readonly_bind; [destruct m1; [apply readonly_say | exact I]|]. intros _.
  apply readonly_bind; [body_go|]. intros m2.
  apply readonly_bind; [destruct m2; [apply readonly_volume | exact I]|]. intros _.
  apply readonly_bind; [body_go|]. intros m3.
  apply readonly_bind; [destruct m3; [apply readonly_play | exact I]|]. intros _.
  destruct (topic_matches msg (py_format prefix +:+ "/scripts")) as [[|]|e];
    [contradiction | exact I | exact I].
Qed.

Lemma final_self_Do {A X : Type} (o : oracle) (c : cmd X) (k : X → prog A)
    (self : Butler) :
  (run o (Do c k) self).1.2 = (run o (k (o X c)) self).1.2.
Proof.
  cbn [run]. destruct (run o (k (o X c)) self) as [[r self'] tr]. reflexivity.
Qed.

(** X25. Only a message on [<prefix>/scripts] changes the object: a pass
    of the listener loop for any other message, and every pass of the
    button loop, end with all attributes of the object as they were. *)
Theorem only_scripts_messages_change_self (o : oracle) (self : Butler)
    (c : client) (prefix interval : pyval) :
  (∀ msg : message, o _ (NextMessage c) = Ok msg →
     topic_matches msg (py_format prefix +:+ "/scripts") ≠ Ok true) →
  (run o (mqtt_listener_body c prefix interval) self).1.2 = self
  ∧ (run o gpi_listener_body self).1.2 = self.
Proof.
  intros Hno. split.
  - unfold mqtt_listener_body, call_r.
    cbn [mbind prog_mbind prog_bind try_except]. rewrite final_self_Do.
    apply run_readonly.
    destruct (o (result message) (NextMessage c)) as [msg|e] eqn:Hnext.
    + specialize (Hno msg eq_refl). cbn [lift prog_bind].
      apply readonly_try_except; [|body_go].
      apply readonly_bind; [body_go|]. intros payload.
      apply readonly_bind; [body_go|]. intros _.
      apply readonly_dispatch_without_scripts, Hno.
    + cbn [lift prog_bind try_except].
      destruct (aiomqtt_MqttError e); body_go.
  - apply run_readonly. unfold gpi_listener_body, aplay. body_go.
Qed.

End LoopFacts.

Section LoopFactsOnJson.
#[local] Existing Instance json_library.

(** X24, for the [aplay] process of a [play] message. *)
Lemma loops_run_only_aplay_and_amixer_witness :
  let o := world (bus_message "butler/play" "horn") true in
  let c := Client (PStr "localhost") in
  let ev := Ev (CreateSubprocess ["aplay"; "/opt/sounds/horn.wav"; "--device=default"])
              (Ok 0%nat) in
  (ev ∈ trace (run o (mqtt_listener_body c (PStr "butler") (PInt 60)) (init sample_config))
   ∨ ev ∈ trace (run o gpi_listener_body (init sample_config)))
  ∧ creates_process ev = true
  ∧ (spawns "aplay" ev = true ∨ spawns "amixer" ev = true).
Proof.
  intros o c ev.
  assert (Hev : ev ∈ trace (run o (mqtt_listener_body c (PStr "butler") (PInt 60))
                              (init sample_config))
                ∨ ev ∈ trace (run o gpi_listener_body (init sample_config))).
  { left. apply (list_elem_of_lookup_2 _ 3%nat). vm_compute. reflexivity. }
  split; [exact Hev|]. split; [reflexivity|].
  apply (loops_run_only_aplay_and_amixer o (init sample_config) c (PStr "butler")
           (PInt 60) ev Hev eq_refl).
Defined.

(** X25, for a message on [butler/say]. *)
Lemma only_scripts_messages_change_self_witness :
  let o := world (bus_message "butler/say" "hello") true in
  let c := Client (PStr "localhost") in
  let self := init sample_config in
  (∀ msg : message, o _ (NextMessage c) = Ok msg →
     topic_matches msg (py_format (PStr "butler") +:+ "/scripts") ≠ Ok true)
  ∧ (run o (mqtt_listener_body c (PStr "butler") (PInt 60)) self).1.2 = self
  ∧ (run o gpi_listener_body self).1.2 = self.
Proof.
  intros o c self.
  assert (Hno : ∀ msg : message, o _ (NextMessage c) = Ok msg →
            topic_matches msg (py_format (PStr "butler") +:+ "/scripts") ≠ Ok true).
  { intros msg Hmsg. injection Hmsg as <-. discriminate. }
  split; [exact Hno|].
  apply (only_scripts_messages_change_self o self c (PStr "butler") (PInt 60) Hno).
Defined.

End LoopFactsOnJson.
